(** * CppBorrowChecker: the borrow registry and its access handles

    A shallow embedding of the run-time borrow checker: the registry
    [BorrowChecker] in its hash-map form (v2.h) and in its fixed-capacity
    array form (the [std::array] variant), and the handles [Own], [Ref] and
    [MutableRef] built on it.

    Conventions of the embedding.
    - A [void *] is a natural number ([N]); [nullptr] is [0].
    - A method is a function on the world it can touch: the registries that
      exist (a handle holds a pointer to one of them in [borrow_checker_])
      and the set of live [new] allocations.  A method that modifies its
      receiver returns the receiver's new value.
    - A call ends in one of five ways, see [outcome]. *)

From stdpp Require Import gmap strings list fin_maps.

Local Open Scope N_scope.

(** ** Pointers, states, outcomes *)

Abbreviation pointer := N (only parsing).

Definition nullptr : pointer := 0.

(** [enum class BorrowState { Valid, Invalid, MutableBorrowed, Owned }] *)
Inductive BorrowState : Set :=
| Valid
| Invalid
| MutableBorrowed
| Owned.

#[global] Instance BorrowState_eq_dec : EqDecision BorrowState.
Proof. solve_decision. Defined.

(** The two exception classes the handles throw. *)
Inductive exception : Set :=
| runtime_error (what : string)
| logic_error (what : string).

(** How a call ends.
    - [Ret a]: it returns [a];
    - [Throw e]: the exception [e] propagates to the caller (it can be
      caught);
    - [AssertFail]: an [assert] failed, the process aborts;
    - [Terminate e]: [e] tried to leave a [noexcept] function,
      [std::terminate] is called;
    - [Undefined]: the behaviour is undefined ([__builtin_unreachable()] was
      reached, a pointer that refers to no object was dereferenced or
      deleted). *)
Inductive outcome (A : Type) : Type :=
| Ret (a : A)
| Throw (e : exception)
| AssertFail
| Terminate (e : exception)
| Undefined.

Arguments Ret {A} a.
Arguments Throw {A} e.
Arguments AssertFail {A}.
Arguments Terminate {A} e.
Arguments Undefined {A}.

Definition outcome_map {A B} (f : A → B) (o : outcome A) : outcome B :=
  match o with
  | Ret a => Ret (f a)
  | Throw e => Throw e
  | AssertFail => AssertFail
  | Terminate e => Terminate e
  | Undefined => Undefined
  end.

(** A computation over a world [W]: the outcome and the world it leaves. *)
Definition M (W A : Type) : Type := W → outcome A * W.

Definition ret {W A} (a : A) : M W A := λ w, (Ret a, w).

Definition bind {W A B} (c : M W A) (k : A → M W B) : M W B :=
  λ w, match c w with
       | (Ret a, w') => k a w'
       | (Throw e, w') => (Throw e, w')
       | (AssertFail, w') => (AssertFail, w')
       | (Terminate e, w') => (Terminate e, w')
       | (Undefined, w') => (Undefined, w')
       end.

Notation "x <- c ;; k" := (bind c (λ x, k))
  (at level 100, c at next level, right associativity).
Notation "c ;; k" := (bind c (λ _, k))
  (at level 100, right associativity).

(** [throw e] *)
Definition throw {W A} (e : exception) : M W A := λ w, (Throw e, w).

(** [assert(c)]: nothing when [NDEBUG] is defined, otherwise an abort when
    [c] is false. *)
Definition assert_ {W} (ndebug : bool) (c : bool) : M W unit :=
  λ w, if ndebug || c then (Ret tt, w) else (AssertFail, w).

(** A function declared [noexcept]: an exception that would leave it ends
    the program. *)
Definition noexcept {W A} (c : M W A) : M W A :=
  λ w, match c w with
       | (Throw e, w') => (Terminate e, w')
       | r => r
       end.

(** ** The world: registries and heap *)

Section World.
Context {BC : Type}.

Record World : Type := {
  checkers : gmap N BC;   (* the BorrowChecker objects, by address *)
  heap : gset N           (* addresses of the live [new] allocations *)
}.

(** The world in which the registry at [bc] is [r]. *)
Definition set_checker (bc : pointer) (r : BC) (w : World) : World :=
  {| checkers := <[bc := r]> (checkers w); heap := heap w |}.

(** [bc->method(...)] for a [const]-like method: reads the registry. *)
Definition query {A} (bc : pointer) (method : BC → A) : M World A :=
  λ w, match checkers w !! bc with
       | Some r => (Ret (method r), w)
       | None => (Undefined, w)
       end.

(** [bc->method(...)] for a method that modifies the registry and may
    fail; the registry is written back when it returns. *)
Definition call (bc : pointer) (method : BC → outcome BC) : M World unit :=
  λ w, match checkers w !! bc with
       | Some r =>
           match method r with
           | Ret r' => (Ret tt, set_checker bc r' w)
           | o => (outcome_map (λ _, tt) o, w)
           end
       | None => (Undefined, w)
       end.

(** [delete p]: nothing for [nullptr], frees a live allocation, undefined
    otherwise. *)
Definition delete_ (p : pointer) : M World unit :=
  λ w, if decide (p = nullptr) then (Ret tt, w)
       else if decide (p ∈ heap w)
            then (Ret tt, {| checkers := checkers w;
                             heap := heap w ∖ {[p]} |})
            else (Undefined, w).
End World.

Arguments World BC : clear implicits.

(** Registry operations as a caller issues them (used to state properties of
    sequences of operations). *)
Inductive op : Set :=
| Register (p : pointer) (s : BorrowState)
| Unregister (p : pointer)
| MarkOwned (p : pointer).

(** ** v2.h: the hash-map registry and its handles *)

Module V2.

(** [std::unordered_map<void *, BorrowState> borrow_map_] *)
Abbreviation BorrowChecker := (gmap N BorrowState).

(** [borrow_map_.count(ptr)] *)
Definition count (borrow_map_ : BorrowChecker) (p : pointer) : nat :=
  match borrow_map_ !! p with
  | Some _ => 1%nat
  | None => 0%nat
  end.

(** [add_borrow]: asserts that the key is absent, then stores the state
    (with [NDEBUG] the store overwrites). *)
Definition add_borrow (ndebug : bool) (borrow_map_ : BorrowChecker)
    (p : pointer) (state : BorrowState) : outcome BorrowChecker :=
  if ndebug || bool_decide (count borrow_map_ p = 0%nat)
  then Ret (<[p := state]> borrow_map_)
  else AssertFail.

(** [remove_borrow]: returns at once when the key is absent. *)
Definition remove_borrow (borrow_map_ : BorrowChecker) (p : pointer)
    : BorrowChecker :=
  match borrow_map_ !! p with
  | None => borrow_map_
  | Some _ => delete p borrow_map_
  end.

Definition check_borrow (borrow_map_ : BorrowChecker) (p : pointer)
    : BorrowState :=
  match borrow_map_ !! p with
  | None => Valid
  | Some second => second
  end.

Definition set_owned (borrow_map_ : BorrowChecker) (p : pointer)
    : BorrowChecker :=
  match borrow_map_ !! p with
  | Some _ => <[p := Owned]> borrow_map_
  | None => borrow_map_
  end.

Definition check_owned (borrow_map_ : BorrowChecker) (p : pointer) : bool :=
  match borrow_map_ !! p with
  | None => false
  | Some second => bool_decide (second = Owned)
  end.

(** One registry operation, and a sequence of them. *)
Definition step (ndebug : bool) (m : BorrowChecker) (o : op)
    : outcome BorrowChecker :=
  match o with
  | Register p s => add_borrow ndebug m p s
  | Unregister p => Ret (remove_borrow m p)
  | MarkOwned p => Ret (set_owned m p)
  end.

Fixpoint run (ndebug : bool) (ops : list op) (m : BorrowChecker)
    : outcome BorrowChecker :=
  match ops with
  | [] => Ret m
  | o :: rest =>
      match step ndebug m o with
      | Ret m' => run ndebug rest m'
      | failed => failed
      end
  end.

(** *** [Own<T>] *)
Module Own.

Record t : Set := {
  data_ : pointer;
  borrow_checker_ : pointer;
  is_owner_ : bool
}.

(** [explicit Own(T *data, BorrowChecker *borrow_checker)] *)
Definition ctor (data borrow_checker : pointer) : t :=
  {| data_ := data; borrow_checker_ := borrow_checker; is_owner_ := true |}.

(** [Own(Own &&other) noexcept]: the new object and what is left of
    [other]. *)
Definition move_ctor (other : t) : t * t :=
  ({| data_ := data_ other;
      borrow_checker_ := borrow_checker_ other;
      is_owner_ := is_owner_ other |},
   {| data_ := nullptr;
      borrow_checker_ := borrow_checker_ other;
      is_owner_ := false |}).

(** [Own &operator=(Own &&other) noexcept], for [this != &other]: the new
    [*this] and what is left of [other]. *)
Definition move_assign (this other : t) : M (World BorrowChecker) (t * t) :=
  noexcept (
    call (borrow_checker_ this) (λ m, Ret (remove_borrow m (data_ this)));;
    ret ({| data_ := data_ other;
            borrow_checker_ := borrow_checker_ other;
            is_owner_ := is_owner_ other |},
         {| data_ := nullptr;
            borrow_checker_ := borrow_checker_ other;
            is_owner_ := false |})).

(** The same with [this == &other]: nothing happens. *)
Definition move_assign_self (this : t) : M (World BorrowChecker) t :=
  ret this.

Definition get (this : t) : pointer := data_ this.

(** [~Own()] *)
Definition dtor (this : t) : M (World BorrowChecker) unit :=
  if is_owner_ this then
    call (borrow_checker_ this) (λ m, Ret (remove_borrow m (data_ this)));;
    delete_ (data_ this)
  else ret tt.

Definition set_owner (this : t) : M (World BorrowChecker) unit :=
  if negb (is_owner_ this) then
    throw (runtime_error "value already has an owner")
  else
    call (borrow_checker_ this) (λ m, Ret (set_owned m (data_ this))).

Definition is_owned (this : t) : M (World BorrowChecker) bool :=
  query (borrow_checker_ this) (λ m, check_owned m (data_ this)).

End Own.

(** *** [Ref<T>] *)
Module Ref.

Record t : Set := {
  data_ : pointer;
  borrow_checker_ : pointer
}.

(** [Ref(T *data, BorrowChecker *borrow_checker)] *)
Definition ctor (ndebug : bool) (data borrow_checker : pointer)
    : M (World BorrowChecker) t :=
  assert_ ndebug (negb (bool_decide (data = nullptr)));;
  assert_ ndebug (negb (bool_decide (borrow_checker = nullptr)));;
  call borrow_checker (λ m, add_borrow ndebug m data Valid);;
  ret {| data_ := data; borrow_checker_ := borrow_checker |}.

(** [Ref(Ref &&other) noexcept] *)
Definition move_ctor (other : t) : t * t :=
  ({| data_ := data_ other; borrow_checker_ := borrow_checker_ other |},
   {| data_ := nullptr; borrow_checker_ := borrow_checker_ other |}).

(** [Ref &operator=(Ref &&other) noexcept], for [this != &other] *)
Definition move_assign (ndebug : bool) (this other : t)
    : M (World BorrowChecker) (t * t) :=
  noexcept (
    s <- query (borrow_checker_ this) (λ m, check_borrow m (data_ other));;
    if bool_decide (s ≠ Valid) then
      throw (runtime_error "cannot move value while it is borrowed")
    else
      call (borrow_checker_ this) (λ m, Ret (remove_borrow m (data_ this)));;
      call (borrow_checker_ other)
           (λ m, add_borrow ndebug m (data_ other) Valid);;
      ret ({| data_ := data_ other;
              borrow_checker_ := borrow_checker_ other |},
           {| data_ := nullptr;
              borrow_checker_ := borrow_checker_ other |})).

(** The same with [this == &other]: nothing happens. *)
Definition move_assign_self (this : t) : M (World BorrowChecker) t :=
  ret this.

(** [~Ref()] *)
Definition dtor (this : t) : M (World BorrowChecker) unit :=
  if bool_decide (data_ this ≠ nullptr) then
    call (borrow_checker_ this) (λ m, Ret (remove_borrow m (data_ this)))
  else ret tt.

End Ref.

(** *** [MutableRef<T>] *)
Module MutableRef.

Record t : Set := {
  data_ : pointer;
  borrow_checker_ : pointer
}.

(** [MutableRef(T *data, BorrowChecker *borrow_checker)] *)
Definition ctor (ndebug : bool) (data borrow_checker : pointer)
    : M (World BorrowChecker) t :=
  s <- query borrow_checker (λ m, check_borrow m data);;
  if bool_decide (s ≠ Valid) then
    throw (runtime_error
             "cannot borrow as mutable more than once, already borrowed")
  else
    call borrow_checker (λ m, add_borrow ndebug m data MutableBorrowed);;
    ret {| data_ := data; borrow_checker_ := borrow_checker |}.

(** [~MutableRef()] *)
Definition dtor (this : t) : M (World BorrowChecker) unit :=
  call (borrow_checker_ this) (λ m, Ret (remove_borrow m (data_ this))).

End MutableRef.

End V2.

(** ** The fixed-capacity variant: an array of slots, and its handles *)

Module V3.

(** [struct PtrState { void *ptr; BorrowState state; }] *)
Record PtrState : Set := {
  ptr : pointer;
  state : BorrowState
}.

#[global] Instance PtrState_eq_dec : EqDecision PtrState.
Proof. solve_decision. Defined.

(** [std::array<PtrState, N> borrow_map_]: a list whose length is the
    capacity [N]. *)
Abbreviation BorrowChecker := (list PtrState).

(** [borrow_map_{}]: every slot value-initialised. *)
Definition init (N : nat) : BorrowChecker :=
  replicate N {| ptr := nullptr; state := Valid |}.

(** The state [check_borrow_impl] writes to [states.states[Is]] for the slot
    [borrow_map_[Is]]. *)
Definition slot_state (p : pointer) (e : PtrState) : BorrowState :=
  if bool_decide (ptr e = nullptr) then Valid
  else if bool_decide (ptr e = p) then state e
  else Valid.

(** The closing loop of [check_borrow_impl]: the first state that is not
    [Valid]. *)
Fixpoint first_not_valid (states : list BorrowState) : BorrowState :=
  match states with
  | [] => Valid
  | s :: rest => if bool_decide (s ≠ Valid) then s else first_not_valid rest
  end.

Definition check_borrow_impl (borrow_map_ : BorrowChecker) (p : pointer)
    : BorrowState :=
  first_not_valid (slot_state p <$> borrow_map_).

(** [add_borrow]: the first slot whose pointer is null takes the pair; when
    the loop finds none, control reaches [__builtin_unreachable()]. *)
Definition add_borrow (borrow_map_ : BorrowChecker) (p : pointer)
    (s : BorrowState) : outcome BorrowChecker :=
  match list_find (λ e, ptr e = nullptr) borrow_map_ with
  | Some (i, _) => Ret (<[i := {| ptr := p; state := s |}]> borrow_map_)
  | None => Undefined
  end.

(** [remove_borrow]: the first slot that holds [p] is reset. *)
Definition remove_borrow (borrow_map_ : BorrowChecker) (p : pointer)
    : BorrowChecker :=
  match list_find (λ e, ptr e = p) borrow_map_ with
  | Some (i, _) =>
      <[i := {| ptr := nullptr; state := Valid |}]> borrow_map_
  | None => borrow_map_
  end.

Definition check_borrow (borrow_map_ : BorrowChecker) (p : pointer)
    : BorrowState :=
  check_borrow_impl borrow_map_ p.

Definition set_owned (borrow_map_ : BorrowChecker) (p : pointer)
    : BorrowChecker :=
  match list_find (λ e, ptr e = p) borrow_map_ with
  | Some (i, e) => <[i := {| ptr := ptr e; state := Owned |}]> borrow_map_
  | None => borrow_map_
  end.

Definition check_owned (borrow_map_ : BorrowChecker) (p : pointer) : bool :=
  match list_find (λ e, ptr e = p) borrow_map_ with
  | Some (_, e) => bool_decide (state e = Owned)
  | None => false
  end.

(** The slots that hold [p], in order, and their number (the array form of
    [borrow_map_.count(ptr)]). *)
Abbreviation slots p borrow_map_ := (filter (λ e, ptr e = p) borrow_map_).

Definition count (borrow_map_ : BorrowChecker) (p : pointer) : nat :=
  length (slots p borrow_map_).

(** One registry operation, and a sequence of them. *)
Definition step (bm : BorrowChecker) (o : op) : outcome BorrowChecker :=
  match o with
  | Register p s => add_borrow bm p s
  | Unregister p => Ret (remove_borrow bm p)
  | MarkOwned p => Ret (set_owned bm p)
  end.

Fixpoint run (ops : list op) (bm : BorrowChecker) : outcome BorrowChecker :=
  match ops with
  | [] => Ret bm
  | o :: rest =>
      match step bm o with
      | Ret bm' => run rest bm'
      | failed => failed
      end
  end.

(** The registries a caller reaches when every [add_borrow] is issued for a
    pointer that no slot holds (the precondition of registration). *)
Inductive reachable (N : nat) : BorrowChecker → Prop :=
| reach_init : reachable N (init N)
| reach_add bm p s bm' :
    reachable N bm → count bm p = 0%nat → add_borrow bm p s = Ret bm' →
    reachable N bm'
| reach_remove bm p : reachable N bm → reachable N (remove_borrow bm p)
| reach_set_owned bm p : reachable N bm → reachable N (set_owned bm p).

(** *** [Own<T, N>] *)
Module Own.

Record t : Set := {
  data_ : pointer;
  borrow_checker_ : pointer;
  is_owner_ : bool
}.

(** [explicit Own(T *data, BorrowChecker<T, N> *borrow_checker)] *)
Definition ctor (data borrow_checker : pointer) : t :=
  {| data_ := data; borrow_checker_ := borrow_checker; is_owner_ := true |}.

(** [Own(Own &&other) noexcept]: the new object and what is left of
    [other]. *)
Definition move_ctor (other : t) : t * t :=
  ({| data_ := data_ other;
      borrow_checker_ := borrow_checker_ other;
      is_owner_ := is_owner_ other |},
   {| data_ := nullptr;
      borrow_checker_ := borrow_checker_ other;
      is_owner_ := false |}).

(** [Own &operator=(Own &&other) noexcept], for [this != &other] *)
Definition move_assign (this other : t) : M (World BorrowChecker) (t * t) :=
  noexcept (
    call (borrow_checker_ this) (λ bm, Ret (remove_borrow bm (data_ this)));;
    ret ({| data_ := data_ other;
            borrow_checker_ := borrow_checker_ other;
            is_owner_ := is_owner_ other |},
         {| data_ := nullptr;
            borrow_checker_ := borrow_checker_ other;
            is_owner_ := false |})).

(** The same with [this == &other]: nothing happens. *)
Definition move_assign_self (this : t) : M (World BorrowChecker) t :=
  ret this.

Definition get (this : t) : pointer := data_ this.

(** [~Own()] *)
Definition dtor (this : t) : M (World BorrowChecker) unit :=
  if is_owner_ this then
    call (borrow_checker_ this) (λ bm, Ret (remove_borrow bm (data_ this)));;
    delete_ (data_ this)
  else ret tt.

(** [Own<T, M> borrow()]: the handle it returns. *)
Definition borrow (this : t) : M (World BorrowChecker) t :=
  s <- query (borrow_checker_ this) (λ bm, check_borrow bm (data_ this));;
  if bool_decide (s ≠ Valid) then
    throw (logic_error "borrow of already borrowed data")
  else
    call (borrow_checker_ this) (λ bm, add_borrow bm (data_ this) Owned);;
    ret (ctor (data_ this) (borrow_checker_ this)).

(** [void set_owned()]: the new [*this]. *)
Definition set_owned (this : t) : M (World BorrowChecker) t :=
  s <- query (borrow_checker_ this) (λ bm, check_borrow bm (data_ this));;
  if bool_decide (s ≠ Valid) then
    throw (logic_error "setting owned of borrowed data")
  else
    call (borrow_checker_ this) (λ bm, Ret (V3.set_owned bm (data_ this)));;
    ret {| data_ := data_ this;
           borrow_checker_ := borrow_checker_ this;
           is_owner_ := true |}.

(** [bool is_owner() const]: [&&] does not evaluate its right operand when
    the flag is false. *)
Definition is_owner (this : t) : M (World BorrowChecker) bool :=
  if is_owner_ this then
    query (borrow_checker_ this) (λ bm, check_owned bm (data_ this))
  else ret false.

End Own.

(** *** [Ref<T, N>] *)
Module Ref.

Record t : Set := {
  data_ : pointer;
  borrow_checker_ : pointer
}.

(** [explicit Ref(T *data, BorrowChecker<T, N> *borrow_checker)] *)
Definition ctor (data borrow_checker : pointer) : M (World BorrowChecker) t :=
  s <- query borrow_checker (λ bm, check_borrow bm data);;
  if bool_decide (s ≠ Valid) then
    throw (logic_error "Invalid borrow in Ref constructor")
  else
    call borrow_checker (λ bm, add_borrow bm data Valid);;
    ret {| data_ := data; borrow_checker_ := borrow_checker |}.

(** [Ref(Ref &&other) noexcept] *)
Definition move_ctor (other : t) : t * t :=
  ({| data_ := data_ other; borrow_checker_ := borrow_checker_ other |},
   {| data_ := nullptr; borrow_checker_ := borrow_checker_ other |}).

(** [Ref &operator=(Ref &&other) noexcept], for [this != &other] *)
Definition move_assign (this other : t) : M (World BorrowChecker) (t * t) :=
  noexcept (
    call (borrow_checker_ this) (λ bm, Ret (remove_borrow bm (data_ this)));;
    ret ({| data_ := data_ other;
            borrow_checker_ := borrow_checker_ other |},
         {| data_ := nullptr;
            borrow_checker_ := borrow_checker_ other |})).

(** The same with [this == &other]: nothing happens. *)
Definition move_assign_self (this : t) : M (World BorrowChecker) t :=
  ret this.

(** [~Ref()] *)
Definition dtor (this : t) : M (World BorrowChecker) unit :=
  call (borrow_checker_ this) (λ bm, Ret (remove_borrow bm (data_ this))).

End Ref.

End V3.


(** ** The first variant (second half of v2.h): strict removal, copyable
    [Ref] *)

Module V1.

(** [enum class BorrowState { Valid, Invalid, MutableBorrowed }] *)
Inductive BorrowState : Set :=
| Valid
| Invalid
| MutableBorrowed.

#[global] Instance BorrowState_eq_dec : EqDecision BorrowState.
Proof. solve_decision. Defined.

(** [std::unordered_map<void *, BorrowState> borrow_map_] *)
Abbreviation BorrowChecker := (gmap N BorrowState).

(** [borrow_map_.count(ptr)] *)
Definition count (borrow_map_ : BorrowChecker) (p : pointer) : nat :=
  match borrow_map_ !! p with
  | Some _ => 1%nat
  | None => 0%nat
  end.

Definition add_borrow (ndebug : bool) (borrow_map_ : BorrowChecker)
    (p : pointer) (state : BorrowState) : outcome BorrowChecker :=
  if ndebug || bool_decide (count borrow_map_ p = 0%nat)
  then Ret (<[p := state]> borrow_map_)
  else AssertFail.

(** [remove_borrow]: asserts that the key exists, then erases it (with
    [NDEBUG], erasing an absent key changes nothing). *)
Definition remove_borrow (ndebug : bool) (borrow_map_ : BorrowChecker)
    (p : pointer) : outcome BorrowChecker :=
  if ndebug || bool_decide (count borrow_map_ p ≠ 0%nat)
  then Ret (delete p borrow_map_)
  else AssertFail.

Definition check_borrow (borrow_map_ : BorrowChecker) (p : pointer)
    : BorrowState :=
  match borrow_map_ !! p with
  | None => Valid
  | Some second => second
  end.

(** *** [Ref<T>] *)
Module Ref.

Record t : Set := {
  data_ : pointer;
  borrow_checker_ : pointer
}.

(** [Ref(T *data, BorrowChecker *borrow_checker)] *)
Definition ctor (ndebug : bool) (data borrow_checker : pointer)
    : M (World BorrowChecker) t :=
  assert_ ndebug (negb (bool_decide (data = nullptr)));;
  assert_ ndebug (negb (bool_decide (borrow_checker = nullptr)));;
  call borrow_checker (λ m, add_borrow ndebug m data Valid);;
  ret {| data_ := data; borrow_checker_ := borrow_checker |}.

(** [Ref(Ref<T> &&other)]: it has no member initialisers, and its body
    starts by reading [data_] and [borrow_checker_], which hold no value
    yet. *)
Definition move_ctor (other : t) : M (World BorrowChecker) t :=
  λ w, (Undefined, w).

(** [Ref<T> &operator=(Ref<T> &&other)], for [this != &other]: the new
    [*this]; [other] keeps its fields. *)
Definition move_assign (ndebug : bool) (this other : t)
    : M (World BorrowChecker) t :=
  assert_ ndebug (negb (bool_decide (data_ this = nullptr)));;
  assert_ ndebug (negb (bool_decide (borrow_checker_ this = nullptr)));;
  s <- query (borrow_checker_ this) (λ m, check_borrow m (data_ other));;
  if bool_decide (s ≠ Valid) then
    throw (runtime_error "cannot move value while it is borrowed")
  else
    call (borrow_checker_ this) (λ m, remove_borrow ndebug m (data_ this));;
    call (borrow_checker_ other) (λ m, remove_borrow ndebug m (data_ other));;
    call (borrow_checker_ other)
         (λ m, add_borrow ndebug m (data_ other) Valid);;
    ret {| data_ := data_ other; borrow_checker_ := borrow_checker_ other |}.

(** The same with [this == &other]. *)
Definition move_assign_self (ndebug : bool) (this : t)
    : M (World BorrowChecker) t :=
  assert_ ndebug (negb (bool_decide (data_ this = nullptr)));;
  assert_ ndebug (negb (bool_decide (borrow_checker_ this = nullptr)));;
  throw (runtime_error "cannot move the same value twice").

(** [Ref(const Ref<T> &other)] *)
Definition copy_ctor (ndebug : bool) (other : t)
    : M (World BorrowChecker) t :=
  assert_ ndebug (negb (bool_decide (data_ other = nullptr)));;
  assert_ ndebug (negb (bool_decide (borrow_checker_ other = nullptr)));;
  call (borrow_checker_ other)
       (λ m, add_borrow ndebug m (data_ other) Valid);;
  ret {| data_ := data_ other; borrow_checker_ := borrow_checker_ other |}.

(** [Ref<T> &operator=(const Ref<T> &other)], for [this != &other] *)
Definition copy_assign (ndebug : bool) (this other : t)
    : M (World BorrowChecker) t :=
  assert_ ndebug (negb (bool_decide (data_ this = nullptr)));;
  assert_ ndebug (negb (bool_decide (borrow_checker_ this = nullptr)));;
  call (borrow_checker_ this) (λ m, remove_borrow ndebug m (data_ this));;
  call (borrow_checker_ other)
       (λ m, add_borrow ndebug m (data_ other) Valid);;
  ret {| data_ := data_ other; borrow_checker_ := borrow_checker_ other |}.

(** The same with [this == &other]. *)
Definition copy_assign_self (ndebug : bool) (this : t)
    : M (World BorrowChecker) t :=
  assert_ ndebug (negb (bool_decide (data_ this = nullptr)));;
  assert_ ndebug (negb (bool_decide (borrow_checker_ this = nullptr)));;
  ret this.

(** [~Ref()] *)
Definition dtor (ndebug : bool) (this : t) : M (World BorrowChecker) unit :=
  call (borrow_checker_ this) (λ m, remove_borrow ndebug m (data_ this)).

(** [T *operator->()] *)
Definition arrow (this : t) : M (World BorrowChecker) pointer :=
  if bool_decide (data_ this = nullptr) then
    throw (runtime_error "Ref is empty")
  else ret (data_ this).

(** [explicit operator bool() const] *)
Definition to_bool (this : t) : bool :=
  negb (bool_decide (data_ this = nullptr)).

End Ref.

(** *** [MutableRef<T>] *)
Module MutableRef.

Record t : Set := {
  data_ : pointer;
  borrow_checker_ : pointer
}.

Definition ctor (ndebug : bool) (data borrow_checker : pointer)
    : M (World BorrowChecker) t :=
  s <- query borrow_checker (λ m, check_borrow m data);;
  if bool_decide (s ≠ Valid) then
    throw (runtime_error
             "cannot borrow as mutable more than once, already borrowed")
  else
    call borrow_checker (λ m, add_borrow ndebug m data MutableBorrowed);;
    ret {| data_ := data; borrow_checker_ := borrow_checker |}.

(** [~MutableRef()] *)
Definition dtor (ndebug : bool) (this : t) : M (World BorrowChecker) unit :=
  call (borrow_checker_ this) (λ m, remove_borrow ndebug m (data_ this)).

End MutableRef.

End V1.

(** ** Relating the two registries *)

(** The array [bm] and the map [m] hold the same entries: for every non-null
    pointer, the slots of [bm] that hold it are exactly the entry of [m]. *)
Definition same_entries (bm : list V3.PtrState) (m : gmap N BorrowState)
    : Prop :=
  ∀ a, a ≠ nullptr →
    V3.slots a bm =
    match m !! a with
    | Some s => [{| V3.ptr := a; V3.state := s |}]
    | None => []
    end.

(** ** Sample worlds *)

(** One hash-map registry at address 100, empty; one allocation at 1. *)
Definition hash_world : World (gmap N BorrowState) :=
  {| checkers := {[ 100 := ∅ ]}; heap := {[ 1 ]} |}.

(** One array registry of capacity 3 at address 100, empty; one allocation
    at 1. *)
Definition array_world : World (list V3.PtrState) :=
  {| checkers := {[ 100 := V3.init 3 ]}; heap := {[ 1 ]} |}.

(** One registry of the first variant at address 100, empty. *)
Definition first_world : World (gmap N V1.BorrowState) :=
  {| checkers := {[ 100 := ∅ ]}; heap := ∅ |}.

(** * Properties *)

(** Unfolds the plumbing of [M] in the goal and in the hypotheses. *)
Ltac unfold_m :=
  unfold bind, ret, throw, assert_, noexcept, query, call, delete_ in *.

(** ** Runs of the repository's own demonstrations *)

Section Runs.

(** [start_v2], second block: a [MutableRef] over the object, then a second
    one, whose constructor throws the exception the demonstration prints. *)
Example start_v2_second_mutable_ref :
  let w1 := set_checker 100 {[ 1 := MutableBorrowed ]} hash_world in
  V2.MutableRef.ctor false 1 100 hash_world =
    (Ret {| V2.MutableRef.data_ := 1; V2.MutableRef.borrow_checker_ := 100 |},
     w1) ∧
  V2.MutableRef.ctor false 1 100 w1 =
    (Throw (runtime_error
              "cannot borrow as mutable more than once, already borrowed"),
     w1).
Proof. split; vm_compute; reflexivity. Qed.

(** [start_v2], third block: the [Own] is moved from, so [my_int.get()] is
    null and the constructor of [my_ref] fails its first assertion. *)
Example start_v2_ref_over_moved_from :
  let my_int := snd (V2.Own.move_ctor (V2.Own.ctor 1 100)) in
  V2.Ref.ctor false (V2.Own.get my_int) 100 hash_world =
    (AssertFail, hash_world).
Proof. reflexivity. Qed.

(** [start_v3]: the constructor of [ref] and the two explicit [add_borrow]
    calls fill the three slots with the same pointer; the constructor of
    [new_ref] then throws. *)
Example start_v3_registry :
  V3.run [Register 1 Valid; Register 1 Valid; Register 1 Owned] (V3.init 3) =
    Ret [ {| V3.ptr := 1; V3.state := Valid |};
          {| V3.ptr := 1; V3.state := Valid |};
          {| V3.ptr := 1; V3.state := Owned |} ] ∧
  V3.check_borrow [ {| V3.ptr := 1; V3.state := Valid |};
                    {| V3.ptr := 1; V3.state := Valid |};
                    {| V3.ptr := 1; V3.state := Owned |} ] 1 = Owned.
Proof. split; reflexivity. Qed.

End Runs.

(** ** The hash-map registry *)

Section HashRegistry.
Implicit Types (m : gmap N BorrowState) (a p : N) (s : BorrowState).

Lemma V2_count_le_1 m a : (V2.count m a ≤ 1)%nat.
Proof. unfold V2.count. destruct (m !! a); lia. Qed.

Lemma V2_count_0 m a : V2.count m a = 0%nat ↔ m !! a = None.
Proof. unfold V2.count. destruct (m !! a); split; congruence. Qed.

Lemma V2_add_borrow_fresh nd m a s :
  m !! a = None → V2.add_borrow nd m a s = Ret (<[a := s]> m).
Proof.
  intros Ha. unfold V2.add_borrow.
  rewrite bool_decide_eq_true_2 by (by apply V2_count_0).
  by rewrite orb_true_r.
Qed.

Lemma V2_add_borrow_taken m a s :
  is_Some (m !! a) → V2.add_borrow false m a s = AssertFail.
Proof.
  intros [s' Ha]. unfold V2.add_borrow, V2.count. by rewrite Ha.
Qed.

Lemma V2_add_borrow_ndebug m a s :
  V2.add_borrow true m a s = Ret (<[a := s]> m).
Proof. done. Qed.

Lemma V2_add_borrow_Ret nd m a s m' :
  V2.add_borrow nd m a s = Ret m' → m' = <[a := s]> m.
Proof.
  unfold V2.add_borrow. destruct (_ || _); congruence.
Qed.

Lemma V2_remove_borrow_delete m a : V2.remove_borrow m a = delete a m.
Proof.
  unfold V2.remove_borrow. destruct (m !! a) eqn:Ha; [done|].
  by rewrite delete_id.
Qed.

Lemma V2_remove_borrow_absent m a :
  m !! a = None → V2.remove_borrow m a = m.
Proof. intros Ha. unfold V2.remove_borrow. by rewrite Ha. Qed.

Lemma V2_remove_borrow_lookup m a : V2.remove_borrow m a !! a = None.
Proof. rewrite V2_remove_borrow_delete. apply lookup_delete_eq. Qed.

Lemma V2_remove_add m a s :
  m !! a = None → V2.remove_borrow (<[a := s]> m) a = m.
Proof.
  intros Ha. rewrite V2_remove_borrow_delete, delete_insert_eq.
  by apply delete_id.
Qed.

Lemma V2_check_borrow_absent m a : m !! a = None → V2.check_borrow m a = Valid.
Proof. intros Ha. unfold V2.check_borrow. by rewrite Ha. Qed.

Lemma V2_check_borrow_Valid m a :
  V2.check_borrow m a = Valid ↔ m !! a = None ∨ m !! a = Some Valid.
Proof.
  unfold V2.check_borrow. destruct (m !! a) as [s|].
  - split; [intros ->; by right | intros [?|?]; congruence].
  - split; [by left | done].
Qed.

End HashRegistry.

(** ** The array registry *)

Section ArrayRegistry.
Implicit Types (bm : list V3.PtrState) (e : V3.PtrState) (a p : N)
  (s : BorrowState).

(** The loops, one slot at a time. *)
Lemma V3_add_borrow_cons e bm p s :
  V3.add_borrow (e :: bm) p s =
  if decide (V3.ptr e = nullptr)
  then Ret ({| V3.ptr := p; V3.state := s |} :: bm)
  else outcome_map (cons e) (V3.add_borrow bm p s).
Proof.
  unfold V3.add_borrow. cbn [list_find]. destruct (decide _); [done|].
  destruct (list_find _ bm) as [[i x]|]; done.
Qed.

Lemma V3_remove_borrow_cons e bm p :
  V3.remove_borrow (e :: bm) p =
  if decide (V3.ptr e = p)
  then {| V3.ptr := nullptr; V3.state := Valid |} :: bm
  else e :: V3.remove_borrow bm p.
Proof.
  unfold V3.remove_borrow. cbn [list_find]. destruct (decide _); [done|].
  destruct (list_find _ bm) as [[i x]|]; done.
Qed.

Lemma V3_set_owned_cons e bm p :
  V3.set_owned (e :: bm) p =
  if decide (V3.ptr e = p)
  then {| V3.ptr := V3.ptr e; V3.state := Owned |} :: bm
  else e :: V3.set_owned bm p.
Proof.
  unfold V3.set_owned. cbn [list_find]. destruct (decide _); [done|].
  destruct (list_find _ bm) as [[i x]|]; done.
Qed.

Lemma V3_check_owned_cons e bm p :
  V3.check_owned (e :: bm) p =
  if decide (V3.ptr e = p)
  then bool_decide (V3.state e = Owned)
  else V3.check_owned bm p.
Proof.
  unfold V3.check_owned. cbn [list_find]. destruct (decide _); [done|].
  destruct (list_find _ bm) as [[i x]|]; done.
Qed.

Lemma V3_check_borrow_cons e bm p :
  V3.check_borrow (e :: bm) p =
  if decide (V3.slot_state p e = Valid)
  then V3.check_borrow bm p
  else V3.slot_state p e.
Proof.
  unfold V3.check_borrow, V3.check_borrow_impl. cbn [fmap list_fmap
    V3.first_not_valid].
  destruct (decide _) as [->|Hne].
  - done.
  - by rewrite bool_decide_eq_true_2.
Qed.

(** The queries read only the slots that hold the pointer. *)
Lemma V3_check_borrow_null bm : V3.check_borrow bm nullptr = Valid.
Proof.
  induction bm as [|e bm IH]; [done|].
  rewrite V3_check_borrow_cons, IH. unfold V3.slot_state.
  repeat case_bool_decide; try done; case_decide; congruence.
Qed.

Lemma V3_check_borrow_slots bm a :
  a ≠ nullptr →
  V3.check_borrow bm a = V3.first_not_valid (V3.state <$> V3.slots a bm).
Proof.
  intros Ha. induction bm as [|e bm IH]; [done|].
  rewrite V3_check_borrow_cons, filter_cons, IH. unfold V3.slot_state.
  destruct (decide (V3.ptr e = a)) as [He|He].
  - rewrite bool_decide_eq_false_2 by congruence.
    rewrite bool_decide_eq_true_2 by done.
    cbn [fmap list_fmap V3.first_not_valid].
    destruct (decide (V3.state e = Valid)) as [Hs|Hs].
    + by rewrite bool_decide_eq_false_2 by (intros ?; done).
    + by rewrite bool_decide_eq_true_2.
  - rewrite (bool_decide_eq_false_2 (V3.ptr e = a)) by done.
    case_bool_decide; by rewrite decide_True.
Qed.

Lemma V3_check_owned_slots bm a :
  V3.check_owned bm a =
  match V3.slots a bm with
  | e :: _ => bool_decide (V3.state e = Owned)
  | [] => false
  end.
Proof.
  induction bm as [|e bm IH]; [done|].
  rewrite V3_check_owned_cons, filter_cons.
  destruct (decide (V3.ptr e = a)); done.
Qed.

(** What each operation does to the slots of a pointer. *)
Lemma V3_add_borrow_slots_ne bm p s bm' a :
  a ≠ nullptr → p ≠ a → V3.add_borrow bm p s = Ret bm' →
  V3.slots a bm' = V3.slots a bm.
Proof.
  intros Ha Hpa. revert bm'.
  induction bm as [|e bm IH]; intros bm'; [done|].
  rewrite V3_add_borrow_cons. destruct (decide (V3.ptr e = nullptr)) as [He|He].
  - intros [= <-]. rewrite !filter_cons. cbn [V3.ptr].
    rewrite decide_False by done. rewrite decide_False by congruence. done.
  - destruct (V3.add_borrow bm p s) as [bm1| | | |] eqn:Hadd; try done.
    intros [= <-]. by rewrite !filter_cons, (IH bm1 eq_refl).
Qed.

Lemma V3_add_borrow_slots_eq bm a s bm' :
  a ≠ nullptr → V3.add_borrow bm a s = Ret bm' → V3.slots a bm = [] →
  V3.slots a bm' = [{| V3.ptr := a; V3.state := s |}].
Proof.
  intros Ha. revert bm'.
  induction bm as [|e bm IH]; intros bm'; [done|].
  rewrite V3_add_borrow_cons. destruct (decide (V3.ptr e = nullptr)) as [He|He].
  - intros [= <-]. rewrite !filter_cons. cbn [V3.ptr].
    rewrite (decide_False (P := V3.ptr e = a)) by congruence.
    rewrite decide_True by done. by intros ->.
  - destruct (V3.add_borrow bm a s) as [bm1| | | |] eqn:Hadd; try done.
    intros [= <-]. rewrite !filter_cons.
    destruct (decide (V3.ptr e = a)); [done|]. by apply IH.
Qed.

Lemma V3_remove_borrow_slots_ne bm p a :
  a ≠ nullptr → p ≠ a → V3.slots a (V3.remove_borrow bm p) = V3.slots a bm.
Proof.
  intros Ha Hpa. induction bm as [|e bm IH]; [done|].
  rewrite V3_remove_borrow_cons. destruct (decide (V3.ptr e = p)) as [He|He].
  - rewrite !filter_cons. cbn [V3.ptr].
    rewrite decide_False by done. rewrite decide_False by congruence. done.
  - by rewrite !filter_cons, IH.
Qed.

Lemma V3_remove_borrow_slots_eq bm a :
  a ≠ nullptr → V3.slots a (V3.remove_borrow bm a) = tail (V3.slots a bm).
Proof.
  intros Ha. induction bm as [|e bm IH]; [done|].
  rewrite V3_remove_borrow_cons. destruct (decide (V3.ptr e = a)) as [He|He].
  - rewrite !filter_cons. cbn [V3.ptr].
    rewrite decide_False by done. by rewrite decide_True.
  - rewrite !filter_cons. by rewrite !decide_False by done.
Qed.

Lemma V3_set_owned_slots_ne bm p a :
  p ≠ a → V3.slots a (V3.set_owned bm p) = V3.slots a bm.
Proof.
  intros Hpa. induction bm as [|e bm IH]; [done|].
  rewrite V3_set_owned_cons. destruct (decide (V3.ptr e = p)) as [He|He].
  - rewrite !filter_cons. cbn [V3.ptr].
    rewrite !decide_False by congruence. done.
  - by rewrite !filter_cons, IH.
Qed.

Lemma V3_set_owned_slots_eq bm a :
  V3.slots a (V3.set_owned bm a) =
  match V3.slots a bm with
  | e :: rest => {| V3.ptr := a; V3.state := Owned |} :: rest
  | [] => []
  end.
Proof.
  induction bm as [|e bm IH]; [done|].
  rewrite V3_set_owned_cons. destruct (decide (V3.ptr e = a)) as [He|He].
  - rewrite !filter_cons. cbn [V3.ptr].
    rewrite !decide_True by done. by rewrite He.
  - rewrite !filter_cons. by rewrite !decide_False by done.
Qed.

Lemma V3_init_slots N a : a ≠ nullptr → V3.slots a (V3.init N) = [].
Proof.
  intros Ha. unfold V3.init. induction N as [|N IH]; [done|].
  cbn [replicate]. rewrite filter_cons. cbn [V3.ptr].
  by rewrite decide_False by congruence.
Qed.

Lemma V3_remove_borrow_absent bm a :
  V3.count bm a = 0%nat → V3.remove_borrow bm a = bm.
Proof.
  unfold V3.count. induction bm as [|e bm IH]; [done|].
  rewrite V3_remove_borrow_cons, filter_cons.
  destruct (decide (V3.ptr e = a)); [done|]. intros H. by rewrite IH.
Qed.

Lemma V3_add_borrow_full bm p s :
  Forall (λ e, V3.ptr e ≠ nullptr) bm → V3.add_borrow bm p s = Undefined.
Proof.
  induction 1 as [|e bm He _ IH]; [done|].
  rewrite V3_add_borrow_cons, decide_False by done. by rewrite IH.
Qed.

Lemma V3_add_borrow_free bm p s :
  Exists (λ e, V3.ptr e = nullptr) bm → ∃ bm', V3.add_borrow bm p s = Ret bm'.
Proof.
  induction bm as [|e bm IH]; intros Hex; [by apply Exists_nil in Hex|].
  rewrite V3_add_borrow_cons. destruct (decide (V3.ptr e = nullptr)); [eauto|].
  apply Exists_cons in Hex as [?|Hex]; [done|].
  destruct (IH Hex) as [bm' ->]. eauto.
Qed.

End ArrayRegistry.

(** ** The handles of v2.h *)

Section HashHandles.
Implicit Types (m : gmap N BorrowState) (a bc : N) (s : BorrowState)
  (w : World (gmap N BorrowState)).

Lemma set_checker_lookup {BC} bc (r : BC) (w : World BC) :
  checkers (set_checker bc r w) !! bc = Some r.
Proof. apply lookup_insert_eq. Qed.

Lemma set_checker_twice {BC} bc (r r' : BC) (w : World BC) :
  set_checker bc r' (set_checker bc r w) = set_checker bc r' w.
Proof. unfold set_checker. cbn. by rewrite insert_insert_eq. Qed.

Lemma set_checker_same {BC} bc (r : BC) (w : World BC) :
  checkers w !! bc = Some r → set_checker bc r w = w.
Proof.
  intros H. destruct w as [c h]. unfold set_checker. cbn in *.
  by rewrite insert_id.
Qed.

(** [MutableRef]'s constructor, case by case. *)
Lemma V2_MutableRef_ctor_eq nd a bc w m :
  checkers w !! bc = Some m →
  V2.MutableRef.ctor nd a bc w =
  if decide (V2.check_borrow m a = Valid) then
    match V2.add_borrow nd m a MutableBorrowed with
    | Ret m' => (Ret {| V2.MutableRef.data_ := a;
                        V2.MutableRef.borrow_checker_ := bc |},
                 set_checker bc m' w)
    | _ => (AssertFail, w)
    end
  else
    (Throw (runtime_error
              "cannot borrow as mutable more than once, already borrowed"),
     w).
Proof.
  intros Hm. unfold V2.MutableRef.ctor. unfold_m. rewrite Hm.
  destruct (decide _) as [Hv|Hv].
  - rewrite bool_decide_eq_false_2 by (intros ?; done). rewrite Hm.
    unfold V2.add_borrow. by destruct (_ || _).
  - by rewrite bool_decide_eq_true_2.
Qed.

Lemma V2_MutableRef_ctor_Ret nd a bc w h w1 :
  V2.MutableRef.ctor nd a bc w = (Ret h, w1) →
  ∃ m, checkers w !! bc = Some m ∧ V2.check_borrow m a = Valid ∧
       h = {| V2.MutableRef.data_ := a; V2.MutableRef.borrow_checker_ := bc |} ∧
       w1 = set_checker bc (<[a := MutableBorrowed]> m) w.
Proof.
  destruct (checkers w !! bc) as [m|] eqn:Hm.
  - rewrite (V2_MutableRef_ctor_eq _ _ _ _ _ Hm).
    destruct (decide _) as [Hv|Hv]; [|done].
    destruct (V2.add_borrow _ _ _ _) as [m'| | | |] eqn:Hadd; try done.
    apply V2_add_borrow_Ret in Hadd as ->. intros [= <- <-]. eauto.
  - unfold V2.MutableRef.ctor. unfold_m. by rewrite Hm.
Qed.

Lemma V2_MutableRef_dtor_eq a bc w m :
  checkers w !! bc = Some m →
  V2.MutableRef.dtor {| V2.MutableRef.data_ := a;
                        V2.MutableRef.borrow_checker_ := bc |} w =
  (Ret tt, set_checker bc (V2.remove_borrow m a) w).
Proof. intros Hm. unfold V2.MutableRef.dtor. unfold_m. cbn. by rewrite Hm. Qed.

(** [Ref]'s constructor, when it returns. *)
Lemma V2_Ref_ctor_Ret nd a bc w r w1 :
  V2.Ref.ctor nd a bc w = (Ret r, w1) →
  ∃ m, checkers w !! bc = Some m ∧
       r = {| V2.Ref.data_ := a; V2.Ref.borrow_checker_ := bc |} ∧
       w1 = set_checker bc (<[a := Valid]> m) w ∧
       (nd = false → a ≠ nullptr ∧ m !! a = None).
Proof.
  unfold V2.Ref.ctor. unfold_m.
  destruct (nd || negb (bool_decide (a = nullptr))) eqn:H1; [|done].
  destruct (nd || negb (bool_decide (bc = nullptr))) eqn:H2; [|done].
  destruct (checkers w !! bc) as [m|] eqn:Hm; [|done].
  destruct (V2.add_borrow nd m a Valid) as [m'| | | |] eqn:Hadd; try done.
  intros [= <- <-]. exists m. pose proof (V2_add_borrow_Ret _ _ _ _ _ Hadd) as ->.
  split; [done|]. split; [done|]. split; [done|]. intros ->. split.
  - cbn in H1. by apply negb_true_iff, bool_decide_eq_false in H1.
  - unfold V2.add_borrow in Hadd. cbn in Hadd.
    case_bool_decide; [by apply V2_count_0|done].
Qed.

Lemma V2_Ref_dtor_eq a bc w m :
  a ≠ nullptr → checkers w !! bc = Some m →
  V2.Ref.dtor {| V2.Ref.data_ := a; V2.Ref.borrow_checker_ := bc |} w =
  (Ret tt, set_checker bc (V2.remove_borrow m a) w).
Proof.
  intros Ha Hm. unfold V2.Ref.dtor. unfold_m. cbn.
  rewrite bool_decide_eq_true_2 by done. by rewrite Hm.
Qed.

End HashHandles.

(** ** Claims about the hash-map registry and the handles of v2.h *)

Section HashClaims.
Implicit Types (m : gmap N BorrowState) (a bc : N) (s : BorrowState)
  (w : World (gmap N BorrowState)).

(** C1, what v2.h does: while a [Ref] over [a] is live, the constructor of
    [MutableRef] over [a] does not throw.  The entry the [Ref] stored has
    state [Valid], so the borrow check passes, and [add_borrow] then finds
    the key present: the assertion fails, or with [NDEBUG] the entry is
    overwritten and the constructor returns. *)
Theorem exclusive_over_live_shared_not_rejected nd a bc w r w1 :
  V2.Ref.ctor nd a bc w = (Ret r, w1) →
  fst (V2.MutableRef.ctor nd a bc w1) =
  if nd
  then Ret {| V2.MutableRef.data_ := a; V2.MutableRef.borrow_checker_ := bc |}
  else AssertFail.
Proof.
  intros (m & Hm & -> & -> & Hnd)%V2_Ref_ctor_Ret.
  rewrite (V2_MutableRef_ctor_eq _ _ _ _ _ (set_checker_lookup _ _ _)).
  unfold V2.check_borrow. rewrite lookup_insert_eq, decide_True by done.
  destruct nd.
  - by rewrite V2_add_borrow_ndebug.
  - rewrite V2_add_borrow_taken; [done|]. rewrite lookup_insert_eq. eauto.
Qed.

Lemma exclusive_over_live_shared_not_rejected_witness :
  let r := {| V2.Ref.data_ := 1; V2.Ref.borrow_checker_ := 100 |} in
  let w1 := set_checker 100 {[ 1 := Valid ]} hash_world in
  V2.Ref.ctor false 1 100 hash_world = (Ret r, w1) ∧
  fst (V2.MutableRef.ctor false 1 100 w1) = AssertFail.
Proof.
  intros r w1.
  assert (V2.Ref.ctor false 1 100 hash_world = (Ret r, w1)) as H
    by (vm_compute; reflexivity).
  split; [exact H|].
  exact (exclusive_over_live_shared_not_rejected false 1 100 hash_world r w1
           H).
Defined.

(** The second half of C1 holds: once the [Ref] is destroyed, the
    constructor of [MutableRef] over the same address returns. *)
Lemma exclusive_after_shared_destroyed a bc w r w1 :
  V2.Ref.ctor false a bc w = (Ret r, w1) →
  ∃ w2 h w3,
    V2.Ref.dtor r w1 = (Ret tt, w2) ∧
    V2.MutableRef.ctor false a bc w2 = (Ret h, w3).
Proof.
  intros (m & Hm & -> & -> & Hnd)%V2_Ref_ctor_Ret.
  destruct (Hnd eq_refl) as [Ha Hfresh].
  rewrite (V2_Ref_dtor_eq _ _ _ _ Ha (set_checker_lookup _ _ _)).
  rewrite set_checker_twice, V2_remove_add by done.
  eexists _, _, _. split; [done|].
  rewrite (V2_MutableRef_ctor_eq _ _ _ _ m (set_checker_lookup _ _ _)).
  rewrite decide_True by (by apply V2_check_borrow_absent).
  by rewrite V2_add_borrow_fresh.
Qed.

(** C2, what v2.h does: the constructor of [Ref] does not consult the
    state of the address.  Over an address whose state is not [Valid] it
    does not throw: the assertion of [add_borrow] fails, or with [NDEBUG]
    the entry is overwritten with [Valid] and the constructor returns. *)
Theorem shared_over_live_exclusive_not_rejected nd a bc w m :
  a ≠ nullptr → bc ≠ nullptr → checkers w !! bc = Some m →
  V2.check_borrow m a ≠ Valid →
  V2.Ref.ctor nd a bc w =
  if nd
  then (Ret {| V2.Ref.data_ := a; V2.Ref.borrow_checker_ := bc |},
        set_checker bc (<[a := Valid]> m) w)
  else (AssertFail, w).
Proof.
  intros Ha Hbc Hm Hs. unfold V2.Ref.ctor. unfold_m.
  rewrite !bool_decide_eq_false_2 by done. rewrite !orb_true_r, Hm.
  destruct nd; [done|].
  rewrite V2_add_borrow_taken; [done|].
  unfold V2.check_borrow in Hs. destruct (m !! a); [eauto|done].
Qed.

Lemma shared_over_live_exclusive_not_rejected_witness :
  let w := set_checker 100 {[ 1 := MutableBorrowed ]} hash_world in
  V2.Ref.ctor false 1 100 w = (AssertFail, w).
Proof.
  intros w.
  apply (shared_over_live_exclusive_not_rejected false 1 100 w
           {[ 1 := MutableBorrowed ]}); [done|done|reflexivity|].
  vm_compute. discriminate.
Defined.

(** C5: when a [MutableRef] over [a] has been constructed, the constructor
    of a second one over [a] throws and leaves the world as it is; the
    destructor of the first removes the entry of [a], after which the
    constructor returns again. *)
Theorem second_exclusive_rejected_until_first_destroyed nd a bc w h1 w1 :
  V2.MutableRef.ctor nd a bc w = (Ret h1, w1) →
  V2.MutableRef.ctor nd a bc w1 =
    (Throw (runtime_error
              "cannot borrow as mutable more than once, already borrowed"),
     w1) ∧
  ∃ w2 m2,
    V2.MutableRef.dtor h1 w1 = (Ret tt, w2) ∧
    checkers w2 !! bc = Some m2 ∧ m2 !! a = None ∧
    ∃ h3 w3, V2.MutableRef.ctor nd a bc w2 = (Ret h3, w3).
Proof.
  intros (m & Hm & Hv & -> & ->)%V2_MutableRef_ctor_Ret. split.
  - rewrite (V2_MutableRef_ctor_eq _ _ _ _ _ (set_checker_lookup _ _ _)).
    unfold V2.check_borrow. by rewrite lookup_insert_eq.
  - rewrite (V2_MutableRef_dtor_eq _ _ _ _ (set_checker_lookup _ _ _)).
    rewrite set_checker_twice.
    eexists _, _. split; [done|]. split; [apply set_checker_lookup|].
    split; [apply V2_remove_borrow_lookup|].
    rewrite (V2_MutableRef_ctor_eq _ _ _ _ _ (set_checker_lookup _ _ _)).
    rewrite decide_True
      by apply V2_check_borrow_absent, V2_remove_borrow_lookup.
    rewrite V2_add_borrow_fresh by apply V2_remove_borrow_lookup. eauto.
Qed.

Lemma second_exclusive_rejected_until_first_destroyed_witness :
  let h1 := {| V2.MutableRef.data_ := 1;
               V2.MutableRef.borrow_checker_ := 100 |} in
  let w1 := set_checker 100 {[ 1 := MutableBorrowed ]} hash_world in
  V2.MutableRef.ctor false 1 100 hash_world = (Ret h1, w1) ∧
  V2.MutableRef.ctor false 1 100 w1 =
    (Throw (runtime_error
              "cannot borrow as mutable more than once, already borrowed"),
     w1).
Proof.
  intros h1 w1.
  assert (V2.MutableRef.ctor false 1 100 hash_world = (Ret h1, w1)) as H
    by (vm_compute; reflexivity).
  split; [exact H|].
  exact (proj1 (second_exclusive_rejected_until_first_destroyed
                  false 1 100 hash_world h1 w1 H)).
Defined.

End HashClaims.

(** ** Claims about the registries *)

Section RegistryClaims.
Implicit Types (m : gmap N BorrowState) (bm : list V3.PtrState)
  (a p : N) (s : BorrowState).

Lemma first_not_valid_Valid (l : list BorrowState) :
  V3.first_not_valid l = Valid ↔ Forall (λ s, s = Valid) l.
Proof.
  induction l as [|s l IH]; [by split|]. cbn [V3.first_not_valid].
  case_bool_decide as Hs.
  - split; [done|]. by intros [? _]%Forall_cons.
  - rewrite IH, Forall_cons. tauto.
Qed.

(** C3, as the code has it: [check_borrow] returns [Valid] exactly when the
    address has no entry or its entries hold the state [Valid].  In the map
    that is the one entry of the key; in the array, every slot that holds
    the (non-null) address.  For [nullptr] the array always answers
    [Valid]. *)
Theorem check_borrow_Valid_iff :
  (∀ m a, V2.check_borrow m a = Valid ↔
          m !! a = None ∨ m !! a = Some Valid) ∧
  (∀ bm a, V3.check_borrow bm a = Valid ↔
           a = nullptr ∨ Forall (λ e, V3.state e = Valid) (V3.slots a bm)).
Proof.
  split; [apply V2_check_borrow_Valid|]. intros bm a.
  destruct (decide (a = nullptr)) as [->|Ha].
  - rewrite V3_check_borrow_null. split; [by left|done].
  - rewrite V3_check_borrow_slots, first_not_valid_Valid, Forall_fmap by done.
    split; [by right|]. by intros [?|?].
Qed.

Lemma check_borrow_Valid_iff_witness :
  V2.check_borrow {[ 7 := Valid ]} 7 = Valid ∧
  V3.check_borrow [ {| V3.ptr := 7; V3.state := Valid |} ] 7 = Valid.
Proof.
  split.
  - apply (proj1 check_borrow_Valid_iff). right. reflexivity.
  - apply (proj2 check_borrow_Valid_iff). right. vm_compute.
    repeat constructor.
Defined.

(** C3 as stated fails: after the constructor of a [Ref] the address has
    an entry, of state [Valid], and [check_borrow] returns [Valid]. *)
Lemma check_borrow_Valid_with_entry :
  let m : gmap N BorrowState := {[ 1 := Valid ]} in
  ¬ (V2.check_borrow m 1 = Valid ↔ m !! 1 = None).
Proof. intros m [H _]. by specialize (H eq_refl). Qed.

(** C9: in the map, registering an absent address and unregistering it
    leaves [check_borrow] at [Valid]; unregistering an absent address
    changes nothing; unregistering twice is unregistering once.  The array
    does the same wherever registration returns, and unregistering is
    idempotent there when at most one slot holds the address. *)
Theorem register_then_unregister :
  (∀ nd m a s, m !! a = None →
     ∃ m1, V2.add_borrow nd m a s = Ret m1 ∧
           V2.check_borrow (V2.remove_borrow m1 a) a = Valid) ∧
  (∀ m a, m !! a = None → V2.remove_borrow m a = m) ∧
  (∀ m a, V2.remove_borrow (V2.remove_borrow m a) a = V2.remove_borrow m a) ∧
  (∀ bm a s bm1, V3.count bm a = 0%nat → V3.add_borrow bm a s = Ret bm1 →
     V3.check_borrow (V3.remove_borrow bm1 a) a = Valid) ∧
  (∀ bm a, V3.count bm a = 0%nat → V3.remove_borrow bm a = bm) ∧
  (∀ bm a, (V3.count bm a ≤ 1)%nat →
     V3.remove_borrow (V3.remove_borrow bm a) a = V3.remove_borrow bm a).
Proof.
  split_and!.
  - intros nd m a s Ha. exists (<[a := s]> m).
    split; [by apply V2_add_borrow_fresh|].
    apply V2_check_borrow_absent, V2_remove_borrow_lookup.
  - apply V2_remove_borrow_absent.
  - intros m a. apply V2_remove_borrow_absent, V2_remove_borrow_lookup.
  - intros bm a s bm1 Hcount Hadd.
    destruct (decide (a = nullptr)) as [->|Ha]; [apply V3_check_borrow_null|].
    rewrite V3_check_borrow_slots, V3_remove_borrow_slots_eq by done.
    apply length_zero_iff_nil in Hcount.
    by rewrite (V3_add_borrow_slots_eq _ _ _ _ Ha Hadd Hcount).
  - apply V3_remove_borrow_absent.
  - intros bm a Hcount. destruct (decide (a = nullptr)) as [->|Ha].
    + clear Hcount. induction bm as [|e bm IH]; [done|].
      rewrite V3_remove_borrow_cons. destruct (decide _) as [He|He].
      * by rewrite V3_remove_borrow_cons, decide_True.
      * rewrite V3_remove_borrow_cons, decide_False by done. by rewrite IH.
    + apply V3_remove_borrow_absent. unfold V3.count in *.
      rewrite V3_remove_borrow_slots_eq by done.
      destruct (V3.slots a bm) as [|e []]; cbn in *; [done|done|lia].
Qed.

Lemma register_then_unregister_witness :
  V2.remove_borrow {[ 2 := Owned ]} 1 = {[ 2 := Owned ]} ∧
  V3.check_borrow
    (V3.remove_borrow [ {| V3.ptr := 1; V3.state := MutableBorrowed |} ] 1) 1
  = Valid.
Proof.
  split.
  - apply (proj1 (proj2 register_then_unregister)). reflexivity.
  - apply (proj1 (proj2 (proj2 (proj2 register_then_unregister)))
             (V3.init 1) 1 MutableBorrowed); reflexivity.
Defined.

(** C4, as the code has it: the map holds at most one entry per address,
    and with assertions on [add_borrow] aborts on an address that has one.
    The array's [add_borrow] does not look for the address: at most one
    slot holds a non-null address in every registry reached by registering
    only addresses that no slot holds. *)
Theorem at_most_one_entry_per_address :
  (∀ m a, (V2.count m a ≤ 1)%nat) ∧
  (∀ m a s, V2.count m a ≠ 0%nat → V2.add_borrow false m a s = AssertFail) ∧
  (∀ N bm a, V3.reachable N bm → a ≠ nullptr → (V3.count bm a ≤ 1)%nat).
Proof.
  split_and!.
  - apply V2_count_le_1.
  - intros m a s Hc. apply V2_add_borrow_taken.
    destruct (m !! a) eqn:Ha; [eauto|]. by apply V2_count_0 in Ha.
  - intros N bm a Hreach Ha. unfold V3.count.
    induction Hreach as [|bm p s bm' _ IH Hfresh Hadd|bm p _ IH|bm p _ IH].
    + rewrite V3_init_slots by done. cbn. lia.
    + destruct (decide (p = a)) as [->|Hpa].
      * apply length_zero_iff_nil in Hfresh.
        rewrite (V3_add_borrow_slots_eq _ _ _ _ Ha Hadd Hfresh). cbn. lia.
      * by rewrite (V3_add_borrow_slots_ne _ _ _ _ _ Ha Hpa Hadd).
    + destruct (decide (p = a)) as [->|Hpa].
      * rewrite V3_remove_borrow_slots_eq by done.
        destruct (V3.slots a bm); cbn in *; lia.
      * by rewrite V3_remove_borrow_slots_ne.
    + destruct (decide (p = a)) as [->|Hpa].
      * rewrite V3_set_owned_slots_eq. by destruct (V3.slots a bm).
      * by rewrite V3_set_owned_slots_ne.
Qed.

Lemma at_most_one_entry_per_address_witness :
  (V3.count [ {| V3.ptr := 1; V3.state := Owned |};
              {| V3.ptr := nullptr; V3.state := Valid |} ] 1 ≤ 1)%nat.
Proof.
  apply (proj2 (proj2 at_most_one_entry_per_address) 2%nat); [|done].
  change (V3.reachable 2
            (V3.set_owned [ {| V3.ptr := 1; V3.state := Valid |};
                            {| V3.ptr := nullptr; V3.state := Valid |} ] 1)).
  apply V3.reach_set_owned.
  apply (V3.reach_add 2 (V3.init 2) 1 Valid); [|reflexivity|reflexivity].
  apply V3.reach_init.
Defined.

(** C4 as stated fails on the array: registering an address twice leaves
    two slots that hold it. *)
Lemma array_holds_address_twice :
  ∃ bm, V3.run [Register 1 Valid; Register 1 Valid] (V3.init 2) = Ret bm ∧
        V3.count bm 1 = 2%nat.
Proof. eexists. split; reflexivity. Qed.

(** C8, as the code has it: when every slot of the array holds a pointer,
    [add_borrow] leaves its loop and reaches [__builtin_unreachable()]: no
    exception, no assertion, no registry returned; the behaviour is
    undefined. *)
Theorem add_borrow_on_full_array bm p s :
  Forall (λ e, V3.ptr e ≠ nullptr) bm → V3.add_borrow bm p s = Undefined.
Proof. apply V3_add_borrow_full. Qed.

Lemma add_borrow_on_full_array_witness :
  V3.add_borrow [ {| V3.ptr := 1; V3.state := Valid |} ] 2 Valid = Undefined.
Proof.
  apply add_borrow_on_full_array. repeat constructor. done.
Defined.

(** C8 as stated fails: on a full array [add_borrow] is no assertion
    failure. *)
Lemma add_borrow_on_full_array_no_assertion :
  let bm := [ {| V3.ptr := 1; V3.state := Valid |} ] in
  Forall (λ e, V3.ptr e ≠ nullptr) bm ∧
  V3.add_borrow bm 2 Valid ≠ AssertFail.
Proof. split; [by repeat constructor|done]. Qed.

End RegistryClaims.

(** ** The two registries side by side *)

Section Refinement.
Implicit Types (m : gmap N BorrowState) (bm : list V3.PtrState)
  (a p : N) (s : BorrowState) (o : op) (ops : list op).

Lemma same_entries_init N : same_entries (V3.init N) ∅.
Proof. intros a Ha. by rewrite V3_init_slots, lookup_empty. Qed.

Lemma same_entries_step bm m o bm' m' :
  same_entries bm m →
  V2.step false m o = Ret m' → V3.step bm o = Ret bm' →
  same_entries bm' m'.
Proof.
  intros Hsim Hm Hbm a Ha. specialize (Hsim a Ha).
  destruct o as [p s|p|p]; cbn in Hm, Hbm.
  - assert (m !! p = None) as Hfresh.
    { unfold V2.add_borrow in Hm. cbn in Hm.
      case_bool_decide; [by apply V2_count_0|done]. }
    apply V2_add_borrow_Ret in Hm as ->.
    destruct (decide (p = a)) as [->|Hpa].
    + rewrite Hfresh in Hsim.
      by rewrite (V3_add_borrow_slots_eq _ _ _ _ Ha Hbm Hsim), lookup_insert_eq.
    + by rewrite (V3_add_borrow_slots_ne _ _ _ _ _ Ha Hpa Hbm),
        lookup_insert_ne.
  - injection Hm as <-. injection Hbm as <-.
    rewrite V2_remove_borrow_delete.
    destruct (decide (p = a)) as [->|Hpa].
    + rewrite V3_remove_borrow_slots_eq, Hsim, lookup_delete_eq by done.
      by destruct (m !! a).
    + by rewrite V3_remove_borrow_slots_ne, lookup_delete_ne.
  - injection Hm as <-. injection Hbm as <-. unfold V2.set_owned.
    destruct (decide (p = a)) as [->|Hpa].
    + rewrite V3_set_owned_slots_eq, Hsim.
      destruct (m !! a) eqn:E; [by rewrite lookup_insert_eq|by rewrite E].
    + rewrite V3_set_owned_slots_ne, Hsim by done.
      destruct (m !! p); [by rewrite lookup_insert_ne|done].
Qed.

Lemma same_entries_run ops bm m bm' m' :
  same_entries bm m →
  V2.run false ops m = Ret m' → V3.run ops bm = Ret bm' →
  same_entries bm' m'.
Proof.
  revert bm m. induction ops as [|o ops IH]; intros bm m Hsim; cbn.
  - by intros [= <-] [= <-].
  - destruct (V2.step false m o) as [m1| | | |] eqn:Hm; try done.
    destruct (V3.step bm o) as [bm1| | | |] eqn:Hbm; try done.
    apply IH. by eapply same_entries_step.
Qed.

Lemma same_entries_queries bm m a :
  same_entries bm m → a ≠ nullptr →
  V2.check_borrow m a = V3.check_borrow bm a ∧
  V2.check_owned m a = V3.check_owned bm a.
Proof.
  intros Hsim Ha. specialize (Hsim a Ha).
  rewrite V3_check_borrow_slots, V3_check_owned_slots, Hsim by done.
  unfold V2.check_borrow, V2.check_owned.
  destruct (m !! a) as [s|]; [|done]. cbn. split; [|done].
  by case_bool_decide.
Qed.

(** C7, as the code has it: run the same operations on an empty map, with
    assertions on, and on an empty array of any capacity.  When both runs
    return (no address is registered while it has an entry, and the array
    never runs out of slots), [check_borrow] and [check_owned] agree on
    every address other than [nullptr]. *)
Theorem registries_agree N ops m bm a :
  V2.run false ops ∅ = Ret m → V3.run ops (V3.init N) = Ret bm →
  a ≠ nullptr →
  V2.check_borrow m a = V3.check_borrow bm a ∧
  V2.check_owned m a = V3.check_owned bm a.
Proof.
  intros Hm Hbm Ha. apply same_entries_queries; [|done].
  eapply same_entries_run; [apply (same_entries_init N)|done..].
Qed.

Lemma registries_agree_witness :
  let ops := [Register 1 Valid; Register 2 MutableBorrowed; MarkOwned 1;
              Unregister 2] in
  V2.check_borrow {[ 1 := Owned ]} 1 =
  V3.check_borrow [ {| V3.ptr := 1; V3.state := Owned |};
                    {| V3.ptr := nullptr; V3.state := Valid |} ] 1.
Proof.
  intros ops.
  apply (registries_agree 2 ops {[ 1 := Owned ]} _ 1);
    [vm_compute; reflexivity|reflexivity|done].
Defined.

(** C7 as stated fails at [nullptr], which the array uses to mark a free
    slot: after [add_borrow(nullptr, MutableBorrowed)] the map answers
    [MutableBorrowed] and the array answers [Valid]. *)
Lemma registries_differ_at_nullptr :
  ∃ m bm,
    V2.run false [Register nullptr MutableBorrowed] ∅ = Ret m ∧
    V3.run [Register nullptr MutableBorrowed] (V3.init 1) = Ret bm ∧
    V2.check_borrow m nullptr ≠ V3.check_borrow bm nullptr.
Proof. eexists _, _. split_and!; [reflexivity|reflexivity|]. by vm_compute. Qed.

End Refinement.

(** ** Claims about the handles of the array variant, and atomicity *)

Section ArrayHandles.
Implicit Types (bm : list V3.PtrState) (a bc : N) (s : BorrowState)
  (w : World (list V3.PtrState)).

Lemma V3_add_borrow_no_throw bm a s e : V3.add_borrow bm a s ≠ Throw e.
Proof. unfold V3.add_borrow. by destruct (list_find _ bm) as [[i x]|]. Qed.

Lemma V2_add_borrow_no_throw nd (m : gmap N BorrowState) a s e :
  V2.add_borrow nd m a s ≠ Throw e.
Proof. unfold V2.add_borrow. by destruct (_ || _). Qed.

Lemma V2_add_borrow_cases nd (m : gmap N BorrowState) a s :
  V2.add_borrow nd m a s = Ret (<[a := s]> m) ∨
  V2.add_borrow nd m a s = AssertFail.
Proof. unfold V2.add_borrow. destruct (_ || _); eauto. Qed.

Lemma V3_check_owned_count bm a :
  V3.check_owned bm a = true →
  S (V3.count (V3.remove_borrow bm a) a) = V3.count bm a ∨ a = nullptr.
Proof.
  intros Howned. destruct (decide (a = nullptr)) as [->|Ha]; [by right|].
  left. unfold V3.count. rewrite V3_remove_borrow_slots_eq by done.
  rewrite V3_check_owned_slots in Howned.
  by destruct (V3.slots a bm).
Qed.

(** C6, as the code has it: [Own dst(std::move(o))] hands the address and
    the owner flag to [dst] and leaves [o] with [nullptr] and no flag.
    [is_owner()] is then false on what is left of [o], and on [dst] it
    returns what it returned on [o] before the move: the flag together with
    an [Owned] entry in the registry, which the constructor of [Own] does
    not create.  The destructor of what is left of [o] changes nothing, in
    any world.  The destructor of a [dst] whose flag is set, over an
    allocated object, frees the object and resets the first slot that holds
    the address, if there is one.  Move assignment to another handle
    [this] first unregisters the address [this] held and frees nothing; it
    leaves the same two handles, and [is_owner()] carries over when the two
    addresses differ and the moved one is not null. *)
Theorem move_transfers_ownership (o : V3.Own.t) w :
  let dst := fst (V3.Own.move_ctor o) in
  let src := snd (V3.Own.move_ctor o) in
  (V3.Own.data_ dst = V3.Own.data_ o ∧
   V3.Own.is_owner_ dst = V3.Own.is_owner_ o ∧
   V3.Own.data_ src = nullptr ∧ V3.Own.is_owner_ src = false) ∧
  V3.Own.is_owner src w = (Ret false, w) ∧
  V3.Own.is_owner dst w = V3.Own.is_owner o w ∧
  (∀ w', V3.Own.dtor src w' = (Ret tt, w')) ∧
  (∀ bm,
     V3.Own.is_owner_ o = true →
     V3.Own.data_ o ≠ nullptr → V3.Own.data_ o ∈ heap w →
     checkers w !! V3.Own.borrow_checker_ o = Some bm →
     V3.Own.dtor dst w =
       (Ret tt,
        {| checkers := <[V3.Own.borrow_checker_ o :=
                           V3.remove_borrow bm (V3.Own.data_ o)]>
                         (checkers w);
           heap := heap w ∖ {[ V3.Own.data_ o ]} |}) ∧
     V3.count (V3.remove_borrow bm (V3.Own.data_ o)) (V3.Own.data_ o)
     = pred (V3.count bm (V3.Own.data_ o))) ∧
  (∀ (this : V3.Own.t) bm,
     checkers w !! V3.Own.borrow_checker_ this = Some bm →
     let w1 := set_checker (V3.Own.borrow_checker_ this)
                 (V3.remove_borrow bm (V3.Own.data_ this)) w in
     V3.Own.move_assign this o w = (Ret (dst, src), w1) ∧
     heap w1 = heap w ∧
     (V3.Own.data_ this ≠ V3.Own.data_ o → V3.Own.data_ o ≠ nullptr →
      fst (V3.Own.is_owner dst w1) = fst (V3.Own.is_owner o w))).
Proof.
  destruct o as [a bc flag]. cbn.
  split; [done|]. split; [done|]. split; [done|]. split; [done|]. split.
  - intros bm -> Ha Hheap Hbm. split.
    + unfold V3.Own.dtor. unfold_m. cbn. rewrite Hbm. cbn.
      rewrite decide_False by done. by rewrite decide_True.
    + unfold V3.count. rewrite V3_remove_borrow_slots_eq by done.
      by destruct (V3.slots a bm).
  - intros [p bc' flag'] bm. cbn. intros Hbm.
    split; [unfold V3.Own.move_assign; unfold_m; cbn; by rewrite Hbm|].
    split; [done|]. intros Hpa Ha.
    unfold V3.Own.is_owner. unfold_m. cbn. destruct flag; [|done].
    destruct (decide (bc' = bc)) as [->|Hbc].
    + rewrite set_checker_lookup, Hbm. cbn. f_equal.
      rewrite !V3_check_owned_slots.
      by rewrite V3_remove_borrow_slots_ne.
    + unfold set_checker at 1. cbn [checkers].
      rewrite lookup_insert_ne by done.
      by destruct (checkers w !! bc).
Qed.

Lemma move_transfers_ownership_witness :
  let o := V3.Own.ctor 1 100 in
  V3.Own.dtor (fst (V3.Own.move_ctor o)) array_world =
    (Ret tt,
     {| checkers := <[100 := V3.remove_borrow (V3.init 3) 1]>
                      (checkers array_world);
        heap := heap array_world ∖ {[ 1 ]} |}).
Proof.
  intros o.
  pose proof (move_transfers_ownership o array_world) as H.
  destruct H as (_ & _ & _ & _ & Hdtor & _).
  destruct (Hdtor (V3.init 3)) as [H _];
    [reflexivity|done|by vm_compute|reflexivity|].
  exact H.
Defined.

(** C6 as stated fails on an owner as its constructor builds it: no entry
    of the registry says [Owned], so [is_owner()] is false on it and false
    on the handle it is moved to. *)
Lemma constructed_owner_moved_is_not_owner :
  let o := V3.Own.ctor 1 100 in
  V3.Own.is_owner_ o = true ∧
  V3.Own.is_owner (fst (V3.Own.move_ctor o)) array_world
    = (Ret false, array_world) ∧
  fst (V3.Own.is_owner (fst (V3.Own.move_ctor o)) array_world) ≠ Ret true.
Proof. intros o. split; [done|]. split; [reflexivity|]. by vm_compute. Qed.

(** The same move on the [Own] of v2.h, which has the flag but no
    [is_owner()]. *)
Lemma V2_move_transfers_flag (o : V2.Own.t) (w : World (gmap N BorrowState))
    (m : gmap N BorrowState) :
  V2.Own.is_owner_ o = true →
  V2.Own.data_ o ≠ nullptr → V2.Own.data_ o ∈ heap w →
  checkers w !! V2.Own.borrow_checker_ o = Some m →
  let dst := fst (V2.Own.move_ctor o) in
  let src := snd (V2.Own.move_ctor o) in
  V2.Own.is_owner_ src = false ∧ V2.Own.is_owner_ dst = true ∧
  (∀ w' : World (gmap N BorrowState), V2.Own.dtor src w' = (Ret tt, w')) ∧
  V2.Own.dtor dst w =
    (Ret tt,
     {| checkers := <[V2.Own.borrow_checker_ o := delete (V2.Own.data_ o) m]>
                      (checkers w);
        heap := heap w ∖ {[ V2.Own.data_ o ]} |}).
Proof.
  destruct o as [a bc flag]. cbn. intros -> Ha Hheap Hm.
  split; [done|]. split; [done|]. split; [done|].
  unfold V2.Own.dtor. unfold_m. cbn. rewrite Hm. cbn.
  rewrite decide_False by done. rewrite decide_True by done.
  by rewrite V2_remove_borrow_delete.
Qed.

(** Move assignment first unregisters the address the destination held. *)
Lemma V3_Own_move_assign_eq (this other : V3.Own.t) w bm :
  checkers w !! V3.Own.borrow_checker_ this = Some bm →
  V3.Own.move_assign this other w =
  (Ret (fst (V3.Own.move_ctor other), snd (V3.Own.move_ctor other)),
   set_checker (V3.Own.borrow_checker_ this)
     (V3.remove_borrow bm (V3.Own.data_ this)) w).
Proof. intros Hbm. unfold V3.Own.move_assign. unfold_m. by rewrite Hbm. Qed.

(** The sibling of C2: the constructor of [Ref] in the array variant does
    consult the state and throws when it is not [Valid]. *)
Lemma V3_Ref_ctor_rejects a bc w bm :
  checkers w !! bc = Some bm → V3.check_borrow bm a ≠ Valid →
  V3.Ref.ctor a bc w =
  (Throw (logic_error "Invalid borrow in Ref constructor"), w).
Proof.
  intros Hbm Hs. unfold V3.Ref.ctor. unfold_m. rewrite Hbm.
  by rewrite bool_decide_eq_true_2.
Qed.

Lemma V3_Ref_ctor_registers a bc w bm :
  checkers w !! bc = Some bm → V3.check_borrow bm a = Valid →
  Exists (λ e, V3.ptr e = nullptr) bm →
  ∃ bm', V3.add_borrow bm a Valid = Ret bm' ∧
         V3.Ref.ctor a bc w =
         (Ret {| V3.Ref.data_ := a; V3.Ref.borrow_checker_ := bc |},
          set_checker bc bm' w).
Proof.
  intros Hbm Hs Hfree.
  destruct (V3_add_borrow_free bm a Valid Hfree) as [bm' Hadd].
  exists bm'. split; [done|]. unfold V3.Ref.ctor. unfold_m. rewrite Hbm.
  rewrite bool_decide_eq_false_2 by (intros ?; done). by rewrite Hbm, Hadd.
Qed.

(** C10: whenever one of these operations ends in an exception, the world
    (every registry, and the heap) is the one it started in: the
    constructors of [Ref] (array variant) and of [MutableRef],
    [Own::set_owned] and [Own::borrow] of the array variant, [Own::set_owner]
    of v2.h, and the move assignment of [Ref] in v2.h, where the exception
    cannot leave the [noexcept] operator and ends the program. *)
Theorem faults_leave_registry_unchanged :
  (∀ a bc w e w', V3.Ref.ctor a bc w = (Throw e, w') → w' = w) ∧
  (∀ nd a bc (w w' : World (gmap N BorrowState)) e,
     V2.MutableRef.ctor nd a bc w = (Throw e, w') → w' = w) ∧
  (∀ this w e w', V3.Own.set_owned this w = (Throw e, w') → w' = w) ∧
  (∀ this w e w', V3.Own.borrow this w = (Throw e, w') → w' = w) ∧
  (∀ this (w w' : World (gmap N BorrowState)) e,
     V2.Own.set_owner this w = (Throw e, w') → w' = w) ∧
  (∀ nd this other (w w' : World (gmap N BorrowState)) e,
     V2.Ref.move_assign nd this other w = (Throw e, w') ∨
     V2.Ref.move_assign nd this other w = (Terminate e, w') → w' = w).
Proof.
  split_and!.
  - intros a bc w e w'. unfold V3.Ref.ctor. unfold_m.
    destruct (checkers w !! bc) as [bm|] eqn:Hbm; [|done].
    case_bool_decide; [by intros [= _ <-]|]. rewrite Hbm.
    destruct (V3.add_borrow bm a Valid) eqn:Hadd; try done.
    by apply V3_add_borrow_no_throw in Hadd.
  - intros nd a bc w w' e. unfold V2.MutableRef.ctor. unfold_m.
    destruct (checkers w !! bc) as [m|] eqn:Hm; [|done].
    case_bool_decide; [by intros [= _ <-]|]. rewrite Hm.
    destruct (V2.add_borrow nd m a MutableBorrowed) eqn:Hadd; try done.
    by apply V2_add_borrow_no_throw in Hadd.
  - intros [a bc flag] w e w'. unfold V3.Own.set_owned. unfold_m. cbn.
    destruct (checkers w !! bc) as [bm|] eqn:Hbm; [|done].
    case_bool_decide; [by intros [= _ <-]|]. by rewrite Hbm.
  - intros [a bc flag] w e w'. unfold V3.Own.borrow. unfold_m. cbn.
    destruct (checkers w !! bc) as [bm|] eqn:Hbm; [|done].
    case_bool_decide; [by intros [= _ <-]|]. rewrite Hbm.
    destruct (V3.add_borrow bm a Owned) eqn:Hadd; try done.
    by apply V3_add_borrow_no_throw in Hadd.
  - intros [a bc flag] w w' e. unfold V2.Own.set_owner. unfold_m. cbn.
    destruct flag; cbn; [|by intros [= _ <-]].
    by destruct (checkers w !! bc).
  - intros nd [a bc] [a' bc'] w w' e. unfold V2.Ref.move_assign. unfold_m.
    cbn. destruct (checkers w !! bc) as [m|] eqn:Hm; [|by intros [|]].
    case_bool_decide; [by intros [[=]|[= _ <-]]|]. rewrite Hm.
    cbn. destruct (_ !! bc') as [m1|] eqn:Hm1; [|by intros [|]].
    destruct (V2_add_borrow_cases nd m1 a' Valid) as [-> | ->];
      by intros [|].
Qed.

Lemma faults_leave_registry_unchanged_witness :
  let w := set_checker 100 {[ 1 := MutableBorrowed ]} hash_world in
  let e := runtime_error
             "cannot borrow as mutable more than once, already borrowed" in
  let w3 := set_checker 100 [ {| V3.ptr := 1; V3.state := Owned |} ]
              array_world in
  let e3 := logic_error "Invalid borrow in Ref constructor" in
  (V2.MutableRef.ctor false 1 100 w = (Throw e, w) ∧ w = w) ∧
  (V3.Ref.ctor 1 100 w3 = (Throw e3, w3) ∧ w3 = w3).
Proof.
  intros w e w3 e3.
  assert (V2.MutableRef.ctor false 1 100 w = (Throw e, w)) as H
    by (vm_compute; reflexivity).
  assert (V3.Ref.ctor 1 100 w3 = (Throw e3, w3)) as H3
    by (vm_compute; reflexivity).
  split; (split; [assumption|]).
  - exact (proj1 (proj2 faults_leave_registry_unchanged) false 1 100 w w e H).
  - exact (proj1 faults_leave_registry_unchanged 1 100 w3 e3 w3 H3).
Defined.

End ArrayHandles.

(** ** Further properties of the registries *)

Section RegistryMore.
Implicit Types (m : gmap N BorrowState) (bm : list V3.PtrState)
  (e : V3.PtrState) (a p q : N) (s : BorrowState) (ops : list op).

Lemma V3_add_borrow_slots_perm bm a s bm' :
  a ≠ nullptr → V3.add_borrow bm a s = Ret bm' →
  V3.slots a bm' ≡ₚ {| V3.ptr := a; V3.state := s |} :: V3.slots a bm.
Proof.
  intros Ha. revert bm'.
  induction bm as [|e bm IH]; intros bm'; [done|].
  rewrite V3_add_borrow_cons. destruct (decide (V3.ptr e = nullptr)) as [He|He].
  - intros [= <-]. rewrite !filter_cons. cbn [V3.ptr].
    rewrite (decide_False (P := V3.ptr e = a)) by congruence.
    by rewrite decide_True.
  - destruct (V3.add_borrow bm a s) as [bm1| | | |] eqn:Hadd; try done.
    intros [= <-]. rewrite !filter_cons.
    destruct (decide (V3.ptr e = a)); [|by apply IH].
    rewrite (IH bm1 eq_refl). apply Permutation_swap.
Qed.

Lemma V3_add_borrow_count bm a s bm' :
  a ≠ nullptr → V3.add_borrow bm a s = Ret bm' →
  V3.count bm' a = S (V3.count bm a).
Proof.
  intros Ha Hadd. unfold V3.count.
  by rewrite (V3_add_borrow_slots_perm _ _ _ _ Ha Hadd).
Qed.

Lemma V3_remove_borrow_count bm a :
  a ≠ nullptr → V3.count (V3.remove_borrow bm a) a = pred (V3.count bm a).
Proof.
  intros Ha. unfold V3.count. rewrite V3_remove_borrow_slots_eq by done.
  by destruct (V3.slots a bm).
Qed.

(** The free slots are the slots that hold [nullptr]. *)
Lemma V3_add_borrow_free_count bm p s :
  p ≠ nullptr →
  match V3.add_borrow bm p s with
  | Ret bm' => S (V3.count bm' nullptr) = V3.count bm nullptr
  | Undefined => V3.count bm nullptr = 0%nat
  | _ => False
  end.
Proof.
  intros Hp. unfold V3.count. induction bm as [|e bm IH]; [done|].
  rewrite V3_add_borrow_cons.
  destruct (decide (V3.ptr e = nullptr)) as [He|He].
  - rewrite !filter_cons. cbn [V3.ptr].
    rewrite decide_False by done. by rewrite decide_True.
  - destruct (V3.add_borrow bm p s) as [bm1| | | |]; cbn [outcome_map];
      try done; rewrite !filter_cons; by rewrite !decide_False by done.
Qed.

Lemma V3_step_length bm o bm' :
  V3.step bm o = Ret bm' → length bm' = length bm.
Proof.
  destruct o as [p s|p|p]; cbn.
  - unfold V3.add_borrow. destruct (list_find _ bm) as [[i x]|]; [|done].
    intros [= <-]. apply length_insert.
  - intros [= <-]. unfold V3.remove_borrow.
    destruct (list_find _ bm) as [[i x]|]; [apply length_insert|done].
  - intros [= <-]. unfold V3.set_owned.
    destruct (list_find _ bm) as [[i x]|]; [apply length_insert|done].
Qed.

Lemma V3_init_free N : V3.count (V3.init N) nullptr = N.
Proof.
  unfold V3.count, V3.init. induction N as [|N IH]; [done|].
  cbn [replicate]. rewrite filter_cons. cbn [V3.ptr].
  rewrite decide_True by done. cbn. by rewrite IH.
Qed.

Lemma V3_run_registrations ops bm :
  Forall (λ o, ∃ p s, o = Register p s ∧ p ≠ nullptr) ops →
  (∃ bm', V3.run ops bm = Ret bm') ↔ (length ops ≤ V3.count bm nullptr)%nat.
Proof.
  intros Hops. revert bm.
  induction Hops as [|o ops (p & s & -> & Hp) _ IH]; intros bm.
  - cbn. split; [lia|eauto].
  - cbn. pose proof (V3_add_borrow_free_count bm p s Hp) as Hfree.
    destruct (V3.add_borrow bm p s) as [bm1| | | |]; try done.
    + rewrite IH. lia.
    + split; [by intros [? [=]]|lia].
Qed.

(** X1. In the map, [add_borrow], [remove_borrow] and [set_owned] on one
    address leave [check_borrow] and [check_owned] of every other address as
    they were; in the array the same holds for every other address that is
    not null. *)
Theorem other_addresses_untouched p q :
  p ≠ q →
  (∀ nd m s m', V2.add_borrow nd m p s = Ret m' →
     V2.check_borrow m' q = V2.check_borrow m q ∧
     V2.check_owned m' q = V2.check_owned m q) ∧
  (∀ m, V2.check_borrow (V2.remove_borrow m p) q = V2.check_borrow m q ∧
        V2.check_owned (V2.remove_borrow m p) q = V2.check_owned m q ∧
        V2.check_borrow (V2.set_owned m p) q = V2.check_borrow m q ∧
        V2.check_owned (V2.set_owned m p) q = V2.check_owned m q) ∧
  (q ≠ nullptr →
   (∀ bm s bm', V3.add_borrow bm p s = Ret bm' →
      V3.check_borrow bm' q = V3.check_borrow bm q ∧
      V3.check_owned bm' q = V3.check_owned bm q) ∧
   (∀ bm, V3.check_borrow (V3.remove_borrow bm p) q = V3.check_borrow bm q ∧
          V3.check_owned (V3.remove_borrow bm p) q = V3.check_owned bm q ∧
          V3.check_borrow (V3.set_owned bm p) q = V3.check_borrow bm q ∧
          V3.check_owned (V3.set_owned bm p) q = V3.check_owned bm q)).
Proof.
  intros Hpq. split_and!.
  - intros nd m s m' ->%V2_add_borrow_Ret.
    unfold V2.check_borrow, V2.check_owned. by rewrite lookup_insert_ne.
  - intros m. rewrite V2_remove_borrow_delete.
    unfold V2.check_borrow, V2.check_owned, V2.set_owned.
    rewrite lookup_delete_ne by done.
    destruct (m !! p); by rewrite ?lookup_insert_ne.
  - intros Hq. split.
    + intros bm s bm' Hadd.
      rewrite !V3_check_borrow_slots, !V3_check_owned_slots by done.
      by rewrite (V3_add_borrow_slots_ne _ _ _ _ _ Hq Hpq Hadd).
    + intros bm.
      rewrite !V3_check_borrow_slots, !V3_check_owned_slots by done.
      by rewrite V3_remove_borrow_slots_ne, V3_set_owned_slots_ne.
Qed.

Lemma other_addresses_untouched_witness :
  V2.check_borrow (V2.remove_borrow {[ 1 := Owned; 2 := MutableBorrowed ]} 1) 2
  = V2.check_borrow {[ 1 := Owned; 2 := MutableBorrowed ]} 2.
Proof.
  assert ((1 : N) ≠ 2) as H by done.
  exact (proj1 (proj1 (proj2 (other_addresses_untouched 1 2 H))
                  {[ 1 := Owned; 2 := MutableBorrowed ]})).
Defined.

(** X2. [set_owned] followed by [check_owned] on the same address answers
    whether the address had an entry: an entry becomes [Owned], and an
    address without entry gets none.  Marking twice is marking once.  This
    holds for the map and for the array. *)
Theorem set_owned_then_check_owned :
  (∀ m p, V2.check_owned (V2.set_owned m p) p
          = bool_decide (V2.count m p ≠ 0%nat)) ∧
  (∀ m p, V2.count (V2.set_owned m p) p = V2.count m p) ∧
  (∀ m p, V2.set_owned (V2.set_owned m p) p = V2.set_owned m p) ∧
  (∀ bm p, V3.check_owned (V3.set_owned bm p) p
           = bool_decide (V3.count bm p ≠ 0%nat)) ∧
  (∀ bm p, V3.count (V3.set_owned bm p) p = V3.count bm p) ∧
  (∀ bm p, V3.set_owned (V3.set_owned bm p) p = V3.set_owned bm p).
Proof.
  split_and!.
  - intros m p. unfold V2.check_owned, V2.set_owned, V2.count.
    destruct (m !! p) eqn:Hp; [by rewrite lookup_insert_eq|by rewrite Hp].
  - intros m p. unfold V2.set_owned, V2.count.
    destruct (m !! p) eqn:Hp; [by rewrite lookup_insert_eq|by rewrite Hp].
  - intros m p. unfold V2.set_owned.
    destruct (m !! p) eqn:Hp; [|by rewrite Hp].
    by rewrite lookup_insert_eq, insert_insert_eq.
  - intros bm p. rewrite V3_check_owned_slots, V3_set_owned_slots_eq.
    unfold V3.count. by destruct (V3.slots p bm).
  - intros bm p. unfold V3.count. rewrite V3_set_owned_slots_eq.
    by destruct (V3.slots p bm).
  - intros bm p. induction bm as [|e bm IH]; [done|].
    rewrite V3_set_owned_cons. destruct (decide (V3.ptr e = p)) as [He|He].
    + by rewrite V3_set_owned_cons, decide_True.
    + rewrite V3_set_owned_cons, decide_False by done. by rewrite IH.
Qed.

(** X3. The array keeps its capacity, and an empty array of capacity [N]
    takes exactly [N] registrations of non-null pointers: a sequence of
    such registrations returns if and only if it is no longer than [N]. *)
Theorem array_capacity N ops :
  (∀ bm bm', V3.run ops bm = Ret bm' → length bm' = length bm) ∧
  (Forall (λ o, ∃ p s, o = Register p s ∧ p ≠ nullptr) ops →
   ((∃ bm', V3.run ops (V3.init N) = Ret bm') ↔ (length ops ≤ N)%nat)).
Proof.
  split.
  - induction ops as [|o ops IH]; intros bm bm'; cbn; [by intros [= <-]|].
    destruct (V3.step bm o) as [bm1| | | |] eqn:Hstep; try done.
    intros Hrun. rewrite (IH _ _ Hrun). by eapply V3_step_length.
  - intros Hops. by rewrite V3_run_registrations, V3_init_free.
Qed.

Lemma array_capacity_witness :
  ∃ bm', V3.run [Register 5 Valid; Register 6 Owned] (V3.init 2) = Ret bm'.
Proof.
  apply (proj2 (array_capacity 2 [Register 5 Valid; Register 6 Owned])).
  - repeat constructor; eexists _, _; (split; [reflexivity|done]).
  - cbn. lia.
Defined.

(** X4. In the array the slots count the registrations of a non-null
    address: [add_borrow] raises the number of slots that hold it by one
    whatever it was, [remove_borrow] lowers it by one (or leaves it at
    zero), and [check_borrow] stays [Valid] when a [Valid] entry is added to
    [Valid] entries. *)
Theorem array_counts_registrations bm a s bm' :
  a ≠ nullptr → V3.add_borrow bm a s = Ret bm' →
  V3.count bm' a = S (V3.count bm a) ∧
  V3.count (V3.remove_borrow bm' a) a = V3.count bm a ∧
  (V3.check_borrow bm a = Valid → s = Valid → V3.check_borrow bm' a = Valid).
Proof.
  intros Ha Hadd. split; [by apply (V3_add_borrow_count bm a s)|]. split.
  - rewrite V3_remove_borrow_count by done.
    by rewrite (V3_add_borrow_count _ _ _ _ Ha Hadd).
  - rewrite !V3_check_borrow_slots, !first_not_valid_Valid, !Forall_fmap
      by done.
    intros Hbm ->. rewrite (V3_add_borrow_slots_perm _ _ _ _ Ha Hadd).
    by apply Forall_cons.
Qed.

Lemma array_counts_registrations_witness :
  V3.count [ {| V3.ptr := 4; V3.state := Valid |};
             {| V3.ptr := 4; V3.state := Valid |} ] 4 = 2%nat.
Proof.
  apply (array_counts_registrations
           [ {| V3.ptr := 4; V3.state := Valid |};
             {| V3.ptr := nullptr; V3.state := Valid |} ] 4 Valid);
    [done|reflexivity].
Defined.

End RegistryMore.

(** ** Further properties of the handles of v2.h *)

Section HashHandlesMore.
Implicit Types (m : gmap N BorrowState) (a b bc : N) (s : BorrowState)
  (w : World (gmap N BorrowState)).

Lemma V2_add_borrow_false_Ret m a s m' :
  V2.add_borrow false m a s = Ret m' → m !! a = None ∧ m' = <[a := s]> m.
Proof.
  intros Hadd. split; [|by eapply V2_add_borrow_Ret].
  unfold V2.add_borrow in Hadd. cbn in Hadd.
  case_bool_decide; [by apply V2_count_0|done].
Qed.

Lemma set_checker_heap {BC} bc (r : BC) (w : World BC) :
  heap (set_checker bc r w) = heap w.
Proof. done. Qed.

(** X5. With assertions on, a [Ref] or a [MutableRef] that was constructed
    and is then destroyed leaves the world exactly as it was before the
    constructor: the destructor removes the entry the constructor added and
    nothing else. *)
Theorem handles_release_what_they_acquire :
  (∀ a bc w r w1,
     V2.Ref.ctor false a bc w = (Ret r, w1) →
     V2.Ref.dtor r w1 = (Ret tt, w)) ∧
  (∀ a bc w h w1,
     V2.MutableRef.ctor false a bc w = (Ret h, w1) →
     V2.MutableRef.dtor h w1 = (Ret tt, w)).
Proof.
  split.
  - intros a bc w r w1 (m & Hm & -> & -> & Hnd)%V2_Ref_ctor_Ret.
    destruct (Hnd eq_refl) as [Ha Hfresh].
    rewrite (V2_Ref_dtor_eq _ _ _ _ Ha (set_checker_lookup _ _ _)).
    by rewrite set_checker_twice, V2_remove_add, set_checker_same.
  - intros a bc w h w1 Hctor.
    destruct (checkers w !! bc) as [m|] eqn:Hm.
    + rewrite (V2_MutableRef_ctor_eq _ _ _ _ _ Hm) in Hctor.
      destruct (decide _) as [Hv|Hv]; [|done].
      destruct (V2.add_borrow _ _ _ _) as [m'| | | |] eqn:Hadd; try done.
      apply V2_add_borrow_false_Ret in Hadd as [Hfresh ->].
      injection Hctor as <- <-.
      rewrite (V2_MutableRef_dtor_eq _ _ _ _ (set_checker_lookup _ _ _)).
      by rewrite set_checker_twice, V2_remove_add, set_checker_same.
    + unfold V2.MutableRef.ctor in Hctor. unfold_m. by rewrite Hm in Hctor.
Qed.

Lemma handles_release_what_they_acquire_witness :
  V2.Ref.dtor {| V2.Ref.data_ := 1; V2.Ref.borrow_checker_ := 100 |}
    (set_checker 100 {[ 1 := Valid ]} hash_world)
  = (Ret tt, hash_world).
Proof.
  apply (proj1 handles_release_what_they_acquire 1 100 hash_world).
  vm_compute. reflexivity.
Defined.

(** X6. With [NDEBUG], a [MutableRef] can be constructed over an address
    whose entry is [Valid] (a live [Ref]); its destructor then erases that
    entry, so the address is unregistered although the [Ref] is still
    there. *)
Theorem ndebug_exclusive_erases_shared_entry a bc w m :
  checkers w !! bc = Some m → m !! a = Some Valid →
  ∃ h w1,
    V2.MutableRef.ctor true a bc w = (Ret h, w1) ∧
    V2.MutableRef.dtor h w1 = (Ret tt, set_checker bc (delete a m) w).
Proof.
  intros Hm Ha. eexists _, _. split.
  - rewrite (V2_MutableRef_ctor_eq _ _ _ _ _ Hm).
    rewrite decide_True by (apply V2_check_borrow_Valid; by right).
    by rewrite V2_add_borrow_ndebug.
  - rewrite (V2_MutableRef_dtor_eq _ _ _ _ (set_checker_lookup _ _ _)).
    by rewrite set_checker_twice, V2_remove_borrow_delete, delete_insert_eq.
Qed.

Lemma ndebug_exclusive_erases_shared_entry_witness :
  ∃ h w1,
    V2.MutableRef.ctor true 1 100 (set_checker 100 {[ 1 := Valid ]} hash_world)
      = (Ret h, w1) ∧
    V2.MutableRef.dtor h w1
      = (Ret tt, set_checker 100 (delete 1 {[ 1 := Valid ]})
                   (set_checker 100 {[ 1 := Valid ]} hash_world)).
Proof.
  apply (ndebug_exclusive_erases_shared_entry 1 100
           (set_checker 100 {[ 1 := Valid ]} hash_world) {[ 1 := Valid ]});
    reflexivity.
Defined.

(** X7. Moving a [Ref] moves the duty to unregister, in either build: the
    destructor of the moved-from [Ref] does nothing, in any world, and the
    destructor of the new [Ref] does what the destructor of the original
    would have done.  With assertions on, that restores the world as it was
    before the first constructor. *)
Theorem moved_ref_releases_once nd a bc w r w1 :
  V2.Ref.ctor nd a bc w = (Ret r, w1) →
  V2.Ref.data_ (fst (V2.Ref.move_ctor r)) = a ∧
  V2.Ref.data_ (snd (V2.Ref.move_ctor r)) = nullptr ∧
  (∀ w', V2.Ref.dtor (snd (V2.Ref.move_ctor r)) w' = (Ret tt, w')) ∧
  (∀ w', V2.Ref.dtor (fst (V2.Ref.move_ctor r)) w' = V2.Ref.dtor r w') ∧
  (nd = false → V2.Ref.dtor (fst (V2.Ref.move_ctor r)) w1 = (Ret tt, w)).
Proof.
  intros (m & Hm & -> & -> & Hnd)%V2_Ref_ctor_Ret.
  cbn [V2.Ref.move_ctor fst snd].
  split; [done|]. split; [done|]. split; [done|]. split; [done|].
  intros Hfalse. destruct (Hnd Hfalse) as [Ha Hfresh].
  rewrite (V2_Ref_dtor_eq _ _ _ _ Ha (set_checker_lookup _ _ _)).
  by rewrite set_checker_twice, V2_remove_add, set_checker_same.
Qed.

Lemma moved_ref_releases_once_witness :
  let r := {| V2.Ref.data_ := 1; V2.Ref.borrow_checker_ := 100 |} in
  V2.Ref.dtor (fst (V2.Ref.move_ctor r))
    (set_checker 100 {[ 1 := Valid ]} hash_world)
  = (Ret tt, hash_world).
Proof.
  intros r.
  assert (V2.Ref.ctor false 1 100 hash_world
          = (Ret r, set_checker 100 {[ 1 := Valid ]} hash_world)) as H
    by (vm_compute; reflexivity).
  exact (proj2 (proj2 (proj2 (proj2
           (moved_ref_releases_once false 1 100 hash_world r _ H))))
           eq_refl).
Defined.

(** X8. Move assignment between two [Ref]s of one registry, [this] over
    [a] and [other] over a different, registered address [b]: the entry of
    [a] is removed, and the closing [add_borrow] finds [b] still registered.
    With assertions on the call aborts there; with [NDEBUG] it returns,
    [*this] now holds [b] and [other] holds [nullptr].  In both builds the
    registry ends as the old one without [a]. *)
Theorem ref_move_assign_between_live_refs nd a b bc w m :
  a ≠ b → checkers w !! bc = Some m → m !! b = Some Valid →
  V2.Ref.move_assign nd
    {| V2.Ref.data_ := a; V2.Ref.borrow_checker_ := bc |}
    {| V2.Ref.data_ := b; V2.Ref.borrow_checker_ := bc |} w =
  (if nd
   then Ret ({| V2.Ref.data_ := b; V2.Ref.borrow_checker_ := bc |},
             {| V2.Ref.data_ := nullptr; V2.Ref.borrow_checker_ := bc |})
   else AssertFail,
   set_checker bc (V2.remove_borrow m a) w).
Proof.
  intros Hab Hm Hb. unfold V2.Ref.move_assign. unfold_m. cbn.
  assert (V2.check_borrow m b = Valid) as Hc
    by (apply V2_check_borrow_Valid; by right).
  rewrite Hm, Hc.
  rewrite bool_decide_eq_false_2 by (intros ?; done). rewrite Hm. cbn.
  rewrite lookup_insert_eq.
  assert (V2.remove_borrow m a !! b = Some Valid) as Hb'.
  { by rewrite V2_remove_borrow_delete, lookup_delete_ne. }
  destruct nd.
  - rewrite V2_add_borrow_ndebug. f_equal. unfold set_checker. cbn.
    by rewrite insert_insert_eq, (insert_id _ _ _ Hb').
  - rewrite V2_add_borrow_taken by eauto. done.
Qed.

Lemma ref_move_assign_between_live_refs_witness :
  let w := set_checker 100 {[ 1 := Valid; 2 := Valid ]} hash_world in
  V2.Ref.move_assign false
    {| V2.Ref.data_ := 1; V2.Ref.borrow_checker_ := 100 |}
    {| V2.Ref.data_ := 2; V2.Ref.borrow_checker_ := 100 |} w =
  (AssertFail,
   set_checker 100 (V2.remove_borrow {[ 1 := Valid; 2 := Valid ]} 1) w).
Proof.
  intros w.
  apply (ref_move_assign_between_live_refs false 1 2 100 w
           {[ 1 := Valid; 2 := Valid ]}); [done|reflexivity|reflexivity].
Defined.

(** X9. Move assignment of [Own] unregisters the address the destination
    held and frees nothing; the object the destination owned stays
    allocated, also after both resulting handles are destroyed. *)
Theorem own_move_assign_never_frees (this other : V2.Own.t) w m :
  checkers w !! V2.Own.borrow_checker_ this = Some m →
  ∃ w1,
    V2.Own.move_assign this other w =
      (Ret (fst (V2.Own.move_ctor other), snd (V2.Own.move_ctor other)), w1) ∧
    w1 = set_checker (V2.Own.borrow_checker_ this)
           (V2.remove_borrow m (V2.Own.data_ this)) w ∧
    heap w1 = heap w ∧
    (V2.Own.data_ this ∈ heap w →
     V2.Own.data_ this ≠ V2.Own.data_ other →
     ∀ w2 w3,
       V2.Own.dtor (fst (V2.Own.move_ctor other)) w1 = (Ret tt, w2) →
       V2.Own.dtor (snd (V2.Own.move_ctor other)) w2 = (Ret tt, w3) →
       V2.Own.data_ this ∈ heap w3).
Proof.
  intros Hm. eexists. split.
  { unfold V2.Own.move_assign. unfold_m. by rewrite Hm. }
  split; [done|]. split; [done|].
  destruct this as [a bc fa], other as [b bc' fb]. cbn in *.
  intros Ha Hab w2 w3 Hdst [= <-]. revert Hdst.
  unfold V2.Own.dtor. unfold_m. cbn. destruct fb; [|by intros [= <-]].
  destruct (_ !! bc') as [m'|]; [|done]. cbn.
  destruct (decide (b = nullptr)); [by intros [= <-]|].
  destruct (decide (b ∈ heap w)); [|done]. intros [= <-]. cbn.
  set_solver.
Qed.

Lemma own_move_assign_never_frees_witness :
  let w := {| checkers := {[ 100 := (∅ : gmap N BorrowState) ]};
              heap := {[ 1; 2 ]} |} in
  ∃ w1,
    V2.Own.move_assign (V2.Own.ctor 1 100) (V2.Own.ctor 2 100) w =
      (Ret (fst (V2.Own.move_ctor (V2.Own.ctor 2 100)),
            snd (V2.Own.move_ctor (V2.Own.ctor 2 100))), w1) ∧
    heap w1 = heap w.
Proof.
  intros w.
  destruct (own_move_assign_never_frees
              (V2.Own.ctor 1 100) (V2.Own.ctor 2 100) w ∅)
    as (w1 & H1 & _ & H2 & _); [reflexivity|].
  exists w1. by split.
Defined.

(** X10. [set_owner] on a moved-from [Own] throws and changes nothing.  On
    an owner it returns, and [is_owned] afterwards answers whether the
    address had an entry before: [set_owner] marks an existing entry and
    creates none. *)
Theorem set_owner_marks_registered_only (o : V2.Own.t) w m :
  checkers w !! V2.Own.borrow_checker_ o = Some m →
  (V2.Own.is_owner_ o = false →
   V2.Own.set_owner o w =
     (Throw (runtime_error "value already has an owner"), w)) ∧
  (V2.Own.is_owner_ o = true →
   ∃ w1, V2.Own.set_owner o w = (Ret tt, w1) ∧
         V2.Own.is_owned o w1 =
           (Ret (bool_decide (V2.count m (V2.Own.data_ o) ≠ 0%nat)), w1)).
Proof.
  destruct o as [a bc flag]. cbn. intros Hm. split; intros ->.
  - done.
  - unfold V2.Own.set_owner, V2.Own.is_owned. unfold_m. cbn. rewrite Hm.
    eexists. split; [done|]. cbn. rewrite lookup_insert_eq. do 2 f_equal.
    unfold V2.check_owned, V2.set_owned, V2.count.
    destruct (m !! a) eqn:Ha; [by rewrite lookup_insert_eq|by rewrite Ha].
Qed.

Lemma set_owner_marks_registered_only_witness :
  ∃ w1, V2.Own.set_owner (V2.Own.ctor 1 100) hash_world = (Ret tt, w1) ∧
        V2.Own.is_owned (V2.Own.ctor 1 100) w1 = (Ret false, w1).
Proof.
  exact (proj2 (set_owner_marks_registered_only
                  (V2.Own.ctor 1 100) hash_world ∅ eq_refl) eq_refl).
Defined.

End HashHandlesMore.

(** ** Further properties of the handles of the array variant *)

Section ArrayHandlesMore.
Implicit Types (bm : list V3.PtrState) (a bc : N) (s : BorrowState)
  (w : World (list V3.PtrState)).

Lemma V3_Ref_ctor_Ret a bc w r w1 :
  V3.Ref.ctor a bc w = (Ret r, w1) →
  ∃ bm bm1, checkers w !! bc = Some bm ∧ V3.check_borrow bm a = Valid ∧
            V3.add_borrow bm a Valid = Ret bm1 ∧
            r = {| V3.Ref.data_ := a; V3.Ref.borrow_checker_ := bc |} ∧
            w1 = set_checker bc bm1 w.
Proof.
  unfold V3.Ref.ctor. unfold_m.
  destruct (checkers w !! bc) as [bm|] eqn:Hbm; [|done].
  case_bool_decide as Hs; [done|]. rewrite Hbm.
  destruct (V3.add_borrow bm a Valid) as [bm1| | | |] eqn:Hadd; try done.
  intros [= <- <-]. exists bm, bm1. by split_and!.
Qed.

Lemma V3_check_borrow_first_Owned bm a e rest :
  a ≠ nullptr → V3.slots a bm = e :: rest → V3.state e = Owned →
  V3.check_borrow bm a = Owned.
Proof.
  intros Ha Hs He. rewrite V3_check_borrow_slots, Hs by done. cbn.
  by rewrite He.
Qed.

(** X11. In the array variant several [Ref]s over one non-null address
    coexist: a constructor that returns takes one more slot for the address
    and leaves [check_borrow] at [Valid], so the next constructor passes the
    check too; the destructor gives one slot back and touches neither the
    heap nor another registry. *)
Theorem array_shared_handles_coexist a bc w bm r w1 :
  a ≠ nullptr → checkers w !! bc = Some bm →
  V3.Ref.ctor a bc w = (Ret r, w1) →
  ∃ bm1,
    w1 = set_checker bc bm1 w ∧
    V3.count bm1 a = S (V3.count bm a) ∧
    V3.check_borrow bm1 a = Valid ∧
    ∃ bm2,
      V3.Ref.dtor r w1 = (Ret tt, set_checker bc bm2 w) ∧
      V3.count bm2 a = V3.count bm a.
Proof.
  intros Ha Hbm (bm0 & bm1 & Hbm0 & Hv & Hadd & -> & ->)%V3_Ref_ctor_Ret.
  rewrite Hbm in Hbm0. injection Hbm0 as <-.
  exists bm1. split; [done|].
  split; [by apply (V3_add_borrow_count bm a Valid)|]. split.
  - revert Hv. rewrite !V3_check_borrow_slots, !first_not_valid_Valid,
      !Forall_fmap by done.
    rewrite (V3_add_borrow_slots_perm _ _ _ _ Ha Hadd). intros Hall.
    by constructor.
  - exists (V3.remove_borrow bm1 a). split.
    + unfold V3.Ref.dtor. unfold_m. cbn.
      by rewrite lookup_insert_eq, set_checker_twice.
    + rewrite V3_remove_borrow_count by done.
      by rewrite (V3_add_borrow_count _ _ _ _ Ha Hadd).
Qed.

Lemma array_shared_handles_coexist_witness :
  let bm1 := [ {| V3.ptr := 1; V3.state := Valid |};
               {| V3.ptr := nullptr; V3.state := Valid |};
               {| V3.ptr := nullptr; V3.state := Valid |} ] in
  let bm2 := [ {| V3.ptr := 1; V3.state := Valid |};
               {| V3.ptr := 1; V3.state := Valid |};
               {| V3.ptr := nullptr; V3.state := Valid |} ] in
  let w1 := set_checker 100 bm1 array_world in
  let r := {| V3.Ref.data_ := 1; V3.Ref.borrow_checker_ := 100 |} in
  V3.Ref.ctor 1 100 w1 = (Ret r, set_checker 100 bm2 w1) ∧
  ∃ bm', set_checker 100 bm2 w1 = set_checker 100 bm' w1 ∧
         V3.count bm' 1 = 2%nat.
Proof.
  intros bm1 bm2 w1 r.
  assert (V3.Ref.ctor 1 100 w1 = (Ret r, set_checker 100 bm2 w1)) as H
    by (vm_compute; reflexivity).
  split; [exact H|].
  destruct (array_shared_handles_coexist 1 100 w1 bm1 r _ ltac:(done)
              eq_refl H) as (bm' & Heq & Hcount & _).
  exists bm'. split; [exact Heq|exact Hcount].
Defined.

(** X12. [Own::borrow] over a non-null address that no slot holds, in a
    registry with a free slot, returns a handle whose [is_owner()] is true;
    a further [borrow] of the same address throws and changes nothing. *)
Theorem borrow_succeeds_once (o : V3.Own.t) w bm :
  V3.Own.data_ o ≠ nullptr →
  checkers w !! V3.Own.borrow_checker_ o = Some bm →
  V3.count bm (V3.Own.data_ o) = 0%nat →
  Exists (λ e, V3.ptr e = nullptr) bm →
  ∃ h w1,
    V3.Own.borrow o w = (Ret h, w1) ∧
    V3.Own.is_owner h w1 = (Ret true, w1) ∧
    V3.Own.borrow o w1 =
      (Throw (logic_error "borrow of already borrowed data"), w1) ∧
    V3.Own.borrow h w1 =
      (Throw (logic_error "borrow of already borrowed data"), w1).
Proof.
  destruct o as [a bc flag]. cbn. intros Ha Hbm Hcount Hfree.
  destruct (V3_add_borrow_free bm a Owned Hfree) as [bm1 Hadd].
  apply length_zero_iff_nil in Hcount.
  pose proof (V3_add_borrow_slots_eq _ _ _ _ Ha Hadd Hcount) as Hslots.
  assert (V3.check_borrow bm a = Valid) as Hv.
  { by rewrite V3_check_borrow_slots, Hcount. }
  assert (V3.check_borrow bm1 a = Owned) as Hv1.
  { by apply (V3_check_borrow_first_Owned _ _ _ _ Ha Hslots). }
  assert (V3.check_owned bm1 a = true) as Ho.
  { by rewrite V3_check_owned_slots, Hslots. }
  exists (V3.Own.ctor a bc), (set_checker bc bm1 w). split_and!.
  - unfold V3.Own.borrow. unfold_m. cbn. rewrite Hbm, Hv.
    rewrite bool_decide_eq_false_2 by (intros ?; done).
    by rewrite Hbm, Hadd.
  - unfold V3.Own.is_owner. unfold_m. cbn.
    by rewrite lookup_insert_eq, Ho.
  - unfold V3.Own.borrow. unfold_m. cbn.
    by rewrite lookup_insert_eq, Hv1.
  - unfold V3.Own.borrow. unfold_m. cbn.
    by rewrite lookup_insert_eq, Hv1.
Qed.

Lemma borrow_succeeds_once_witness :
  ∃ h w1, V3.Own.borrow (V3.Own.ctor 1 100) array_world = (Ret h, w1) ∧
          V3.Own.is_owner h w1 = (Ret true, w1).
Proof.
  destruct (borrow_succeeds_once (V3.Own.ctor 1 100) array_world (V3.init 3))
    as (h & w1 & H1 & H2 & _);
    [done|reflexivity|reflexivity|by repeat constructor|].
  by exists h, w1.
Defined.

(** X13. [Own::set_owned] over an address whose state is [Valid] returns
    and sets the owner flag; [is_owner()] is then true exactly when some
    slot held the address, since the registry marks an entry and creates
    none.  When it marked one, a second [set_owned] throws and changes
    nothing. *)
Theorem set_owned_marks_registered_only (o : V3.Own.t) w bm :
  checkers w !! V3.Own.borrow_checker_ o = Some bm →
  V3.check_borrow bm (V3.Own.data_ o) = Valid →
  ∃ o' w1,
    V3.Own.set_owned o w = (Ret o', w1) ∧
    V3.Own.is_owner_ o' = true ∧ V3.Own.data_ o' = V3.Own.data_ o ∧
    V3.Own.is_owner o' w1 =
      (Ret (bool_decide (V3.count bm (V3.Own.data_ o) ≠ 0%nat)), w1) ∧
    (V3.Own.data_ o ≠ nullptr → V3.count bm (V3.Own.data_ o) ≠ 0%nat →
     V3.Own.set_owned o' w1 =
       (Throw (logic_error "setting owned of borrowed data"), w1)).
Proof.
  destruct o as [a bc flag]. cbn. intros Hbm Hv.
  eexists _, _. split_and!.
  - unfold V3.Own.set_owned. unfold_m. cbn. rewrite Hbm, Hv.
    rewrite bool_decide_eq_false_2 by (intros ?; done). by rewrite Hbm.
  - done.
  - done.
  - unfold V3.Own.is_owner. unfold_m. cbn. rewrite lookup_insert_eq.
    do 2 f_equal. rewrite V3_check_owned_slots, V3_set_owned_slots_eq.
    unfold V3.count. by destruct (V3.slots a bm).
  - intros Ha Hcount. unfold V3.Own.set_owned. unfold_m. cbn.
    rewrite lookup_insert_eq.
    assert (V3.check_borrow (V3.set_owned bm a) a = Owned) as ->; [|done].
    unfold V3.count in Hcount.
    destruct (V3.slots a bm) as [|e rest] eqn:Hs; [done|].
    eapply (V3_check_borrow_first_Owned _ _ _ rest Ha);
      [by rewrite V3_set_owned_slots_eq, Hs|done].
Qed.

Lemma set_owned_marks_registered_only_witness :
  ∃ o' w1,
    V3.Own.set_owned (V3.Own.ctor 1 100) array_world = (Ret o', w1) ∧
    V3.Own.is_owner o' w1 = (Ret false, w1).
Proof.
  destruct (set_owned_marks_registered_only
              (V3.Own.ctor 1 100) array_world (V3.init 3))
    as (o' & w1 & H1 & _ & _ & H2 & _); [reflexivity|reflexivity|].
  by exists o', w1.
Defined.

(** X14. In the array variant the destructor of a moved-from [Ref] does
    call [remove_borrow], with [nullptr]: the array keeps its length and
    the slots of every non-null address, so no query on a non-null address
    changes. *)
Theorem moved_from_ref_dtor_harmless (r : V3.Ref.t) w bm :
  checkers w !! V3.Ref.borrow_checker_ r = Some bm →
  V3.Ref.data_ (fst (V3.Ref.move_ctor r)) = V3.Ref.data_ r ∧
  ∃ bm',
    V3.Ref.dtor (snd (V3.Ref.move_ctor r)) w =
      (Ret tt, set_checker (V3.Ref.borrow_checker_ r) bm' w) ∧
    length bm' = length bm ∧
    ∀ a, a ≠ nullptr →
      V3.count bm' a = V3.count bm a ∧
      V3.check_borrow bm' a = V3.check_borrow bm a ∧
      V3.check_owned bm' a = V3.check_owned bm a.
Proof.
  destruct r as [p bc]. cbn. intros Hbm. split; [done|].
  exists (V3.remove_borrow bm nullptr). split_and!.
  - unfold V3.Ref.dtor. unfold_m. cbn. by rewrite Hbm.
  - unfold V3.remove_borrow.
    destruct (list_find _ bm) as [[i x]|]; [apply length_insert|done].
  - intros a Ha. unfold V3.count.
    rewrite !V3_check_borrow_slots, !V3_check_owned_slots by done.
    by rewrite V3_remove_borrow_slots_ne by done.
Qed.

Lemma moved_from_ref_dtor_harmless_witness :
  let r := {| V3.Ref.data_ := 1; V3.Ref.borrow_checker_ := 100 |} in
  ∃ bm', V3.Ref.dtor (snd (V3.Ref.move_ctor r)) array_world =
           (Ret tt, set_checker 100 bm' array_world) ∧
         length bm' = 3%nat.
Proof.
  intros r.
  destruct (moved_from_ref_dtor_harmless r array_world (V3.init 3))
    as (_ & bm' & H1 & H2 & _); [reflexivity|].
  by exists bm'.
Defined.

End ArrayHandlesMore.

(** ** Properties of the first variant *)

Section FirstVariant.
Implicit Types (m : gmap N V1.BorrowState) (a b bc : N)
  (w : World (gmap N V1.BorrowState)).

Lemma V1_count_0 m a : V1.count m a = 0%nat ↔ m !! a = None.
Proof. unfold V1.count. destruct (m !! a); split; congruence. Qed.

Lemma V1_add_borrow_fresh m a s :
  m !! a = None → V1.add_borrow false m a s = Ret (<[a := s]> m).
Proof.
  intros Ha. unfold V1.add_borrow. cbn.
  by rewrite bool_decide_eq_true_2 by (by apply V1_count_0).
Qed.

Lemma V1_add_borrow_taken m a s :
  is_Some (m !! a) → V1.add_borrow false m a s = AssertFail.
Proof. intros [s' Ha]. unfold V1.add_borrow, V1.count. by rewrite Ha. Qed.

Lemma V1_add_borrow_false_Ret m a s m' :
  V1.add_borrow false m a s = Ret m' → m !! a = None ∧ m' = <[a := s]> m.
Proof.
  unfold V1.add_borrow. cbn. case_bool_decide as Hc; [|done].
  intros [= <-]. by apply V1_count_0 in Hc.
Qed.

Lemma V1_remove_borrow_present m a :
  is_Some (m !! a) → V1.remove_borrow false m a = Ret (delete a m).
Proof.
  intros [s' Ha]. unfold V1.remove_borrow, V1.count. rewrite Ha. cbn.
  by rewrite bool_decide_eq_true_2.
Qed.

Lemma V1_remove_borrow_absent m a :
  m !! a = None → V1.remove_borrow false m a = AssertFail.
Proof. intros Ha. unfold V1.remove_borrow, V1.count. by rewrite Ha. Qed.

Lemma V1_call_Ret bc w m (f : gmap N V1.BorrowState → outcome _) m' :
  checkers w !! bc = Some m → f m = Ret m' →
  call bc f w = (Ret tt, set_checker bc m' w).
Proof. intros Hm Hf. unfold call. by rewrite Hm, Hf. Qed.

Lemma V1_call_AssertFail bc w m (f : gmap N V1.BorrowState → outcome _) :
  checkers w !! bc = Some m → f m = AssertFail →
  call bc f w = (AssertFail, w).
Proof. intros Hm Hf. unfold call. by rewrite Hm, Hf. Qed.

Lemma V1_Ref_ctor_Ret a bc w r w1 :
  V1.Ref.ctor false a bc w = (Ret r, w1) →
  ∃ m, checkers w !! bc = Some m ∧ m !! a = None ∧
       a ≠ nullptr ∧ bc ≠ nullptr ∧
       r = {| V1.Ref.data_ := a; V1.Ref.borrow_checker_ := bc |} ∧
       w1 = set_checker bc (<[a := V1.Valid]> m) w.
Proof.
  unfold V1.Ref.ctor. unfold_m. cbn.
  case_bool_decide as Ha; [done|]. case_bool_decide as Hbc; [done|]. cbn.
  destruct (checkers w !! bc) as [m|] eqn:Hm; [|done].
  destruct (V1.add_borrow false m a V1.Valid) as [m'| | | |] eqn:Hadd;
    try done.
  apply V1_add_borrow_false_Ret in Hadd as [Hfresh ->].
  intros [= <- <-]. by exists m.
Qed.

(** X15. With assertions on, a [Ref] of the first variant cannot be copied:
    the copy constructor registers the address again, and the source's
    registration makes [add_borrow] abort.  Copy assignment from it aborts
    the same way, after it has unregistered the destination's address. *)
Theorem copy_of_live_ref_aborts a bc w r w1 :
  V1.Ref.ctor false a bc w = (Ret r, w1) →
  V1.Ref.copy_ctor false r w1 = (AssertFail, w1) ∧
  ∀ a' m1, a' ≠ nullptr → a' ≠ a →
    checkers w1 !! bc = Some m1 → is_Some (m1 !! a') →
    V1.Ref.copy_assign false
      {| V1.Ref.data_ := a'; V1.Ref.borrow_checker_ := bc |} r w1 =
    (AssertFail, set_checker bc (delete a' m1) w1).
Proof.
  intros (m & Hm & Hfresh & Ha & Hbc & -> & ->)%V1_Ref_ctor_Ret. split.
  - unfold V1.Ref.copy_ctor. unfold_m. cbn.
    rewrite !bool_decide_eq_false_2 by done. cbn.
    rewrite lookup_insert_eq, V1_add_borrow_taken; [done|].
    rewrite lookup_insert_eq. eauto.
  - intros a' m1 Ha' Hne Hm1 Hsome.
    rewrite set_checker_lookup in Hm1. injection Hm1 as <-.
    unfold V1.Ref.copy_assign. unfold_m. cbn.
    rewrite !bool_decide_eq_false_2 by done. cbn.
    rewrite lookup_insert_eq, V1_remove_borrow_present by done. cbn.
    rewrite lookup_insert_eq, V1_add_borrow_taken; [done|].
    rewrite lookup_delete_ne, lookup_insert_eq by done. eauto.
Qed.

Lemma copy_of_live_ref_aborts_witness :
  let r := {| V1.Ref.data_ := 1; V1.Ref.borrow_checker_ := 100 |} in
  let w1 := set_checker 100 {[ 1 := V1.Valid ]} first_world in
  V1.Ref.copy_ctor false r w1 = (AssertFail, w1).
Proof.
  intros r w1.
  assert (V1.Ref.ctor false 1 100 first_world = (Ret r, w1)) as H
    by (vm_compute; reflexivity).
  exact (proj1 (copy_of_live_ref_aborts 1 100 first_world r w1 H)).
Defined.

(** X16. Move assignment in the first variant leaves the source as it is:
    after [this = std::move(other)] both handles hold the source's address
    and the registry has one entry for it.  With assertions on, the
    destructor that runs second finds no entry and aborts. *)
Theorem move_assign_then_destructors_abort a b bc w m :
  a ≠ b → a ≠ nullptr → bc ≠ nullptr →
  checkers w !! bc = Some m → is_Some (m !! a) → m !! b = Some V1.Valid →
  let this := {| V1.Ref.data_ := a; V1.Ref.borrow_checker_ := bc |} in
  let other := {| V1.Ref.data_ := b; V1.Ref.borrow_checker_ := bc |} in
  V1.Ref.move_assign false this other w =
    (Ret other, set_checker bc (delete a m) w) ∧
  V1.Ref.dtor false other (set_checker bc (delete a m) w) =
    (Ret tt, set_checker bc (delete b (delete a m)) w) ∧
  V1.Ref.dtor false other (set_checker bc (delete b (delete a m)) w) =
    (AssertFail, set_checker bc (delete b (delete a m)) w).
Proof.
  intros Hab Ha Hbc Hm Hsa Hb this other.
  assert (delete a m !! b = Some V1.Valid) as Hb'
    by (by rewrite lookup_delete_ne).
  split_and!.
  - unfold V1.Ref.move_assign. unfold_m. cbn.
    rewrite !bool_decide_eq_false_2 by done. cbn. rewrite Hm.
    assert (V1.check_borrow m b = V1.Valid) as ->
      by (unfold V1.check_borrow; by rewrite Hb).
    rewrite bool_decide_eq_false_2 by (intros ?; done). rewrite Hm.
    rewrite V1_remove_borrow_present by done. cbn.
    rewrite lookup_insert_eq, V1_remove_borrow_present by eauto. cbn.
    rewrite lookup_insert_eq, V1_add_borrow_fresh by apply lookup_delete_eq.
    rewrite !set_checker_twice.
    by rewrite insert_delete_eq, (insert_id _ _ _ Hb').
  - unfold V1.Ref.dtor. unfold_m. cbn.
    rewrite lookup_insert_eq, V1_remove_borrow_present by eauto.
    by rewrite set_checker_twice.
  - unfold V1.Ref.dtor. unfold_m. cbn.
    by rewrite lookup_insert_eq, V1_remove_borrow_absent
      by apply lookup_delete_eq.
Qed.

Lemma move_assign_then_destructors_abort_witness :
  let m : gmap N V1.BorrowState := {[ 1 := V1.Valid; 2 := V1.Valid ]} in
  let w := set_checker 100 m first_world in
  let other := {| V1.Ref.data_ := 2; V1.Ref.borrow_checker_ := 100 |} in
  V1.Ref.dtor false other (set_checker 100 (delete 2 (delete 1 m)) w) =
    (AssertFail, set_checker 100 (delete 2 (delete 1 m)) w).
Proof.
  intros m w other.
  apply (move_assign_then_destructors_abort 1 2 100 w m);
    [done|done|done|reflexivity|by eexists|reflexivity].
Defined.

(** X17. With assertions on, the handles of the first variant release what
    they acquire: the destructor of a [Ref] or of a [MutableRef] restores
    the world as it was before the constructor; and while a [MutableRef] is
    there the constructor of a second one over the same address throws and
    changes nothing. *)
Theorem first_variant_handles_release :
  (∀ a bc w r w1,
     V1.Ref.ctor false a bc w = (Ret r, w1) →
     V1.Ref.dtor false r w1 = (Ret tt, w)) ∧
  (∀ a bc w h w1,
     V1.MutableRef.ctor false a bc w = (Ret h, w1) →
     V1.MutableRef.ctor false a bc w1 =
       (Throw (runtime_error
                 "cannot borrow as mutable more than once, already borrowed"),
        w1) ∧
     V1.MutableRef.dtor false h w1 = (Ret tt, w)).
Proof.
  split.
  - intros a bc w r w1 (m & Hm & Hfresh & Ha & Hbc & -> & ->)%V1_Ref_ctor_Ret.
    unfold V1.Ref.dtor. unfold_m. cbn.
    rewrite lookup_insert_eq, V1_remove_borrow_present
      by (rewrite lookup_insert_eq; eauto).
    rewrite set_checker_twice, delete_insert_eq, delete_id by done.
    by rewrite set_checker_same.
  - intros a bc w h w1. unfold V1.MutableRef.ctor at 1. unfold_m.
    destruct (checkers w !! bc) as [m|] eqn:Hm; [|done].
    case_bool_decide as Hs; [done|]. rewrite Hm.
    destruct (V1.add_borrow false m a V1.MutableBorrowed) as [m'| | | |]
      eqn:Hadd; try done.
    apply V1_add_borrow_false_Ret in Hadd as [Hfresh ->].
    intros [= <- <-]. split.
    + unfold V1.MutableRef.ctor. unfold_m. cbn. rewrite lookup_insert_eq.
      unfold V1.check_borrow. rewrite lookup_insert_eq.
      by rewrite bool_decide_eq_true_2.
    + unfold V1.MutableRef.dtor. unfold_m. cbn.
      rewrite lookup_insert_eq, V1_remove_borrow_present
        by (rewrite lookup_insert_eq; eauto).
      rewrite set_checker_twice, delete_insert_eq, delete_id by done.
      by rewrite set_checker_same.
Qed.

Lemma first_variant_handles_release_witness :
  V1.Ref.dtor false {| V1.Ref.data_ := 1; V1.Ref.borrow_checker_ := 100 |}
    (set_checker 100 {[ 1 := V1.Valid ]} first_world)
  = (Ret tt, first_world).
Proof.
  apply (proj1 first_variant_handles_release 1 100 first_world).
  vm_compute. reflexivity.
Defined.

End FirstVariant.

(** ** Moves in the array variant and in v2.h *)

Section Moves.
Implicit Types (bm : list V3.PtrState) (a b bc : N).

Lemma V3_remove_borrow_count_ne bm p a :
  a ≠ nullptr → p ≠ a →
  V3.count (V3.remove_borrow bm p) a = V3.count bm a.
Proof. intros Ha Hpa. unfold V3.count. by rewrite V3_remove_borrow_slots_ne. Qed.

(** X18. Move assignment between two [Ref]s of one array registry, over
    different non-null addresses, gives back the slot of the destination's
    old address and keeps the source's; when the two resulting handles are
    destroyed the source's slot is given back too, once. *)
Theorem array_ref_move_assign_releases a b bc (w : World (list V3.PtrState))
    bm :
  a ≠ nullptr → b ≠ nullptr → a ≠ b → checkers w !! bc = Some bm →
  let this := {| V3.Ref.data_ := a; V3.Ref.borrow_checker_ := bc |} in
  let other := {| V3.Ref.data_ := b; V3.Ref.borrow_checker_ := bc |} in
  ∃ bm1 bm3,
    V3.Ref.move_assign this other w =
      (Ret (fst (V3.Ref.move_ctor other), snd (V3.Ref.move_ctor other)),
       set_checker bc bm1 w) ∧
    V3.count bm1 a = pred (V3.count bm a) ∧
    V3.count bm1 b = V3.count bm b ∧
    bind (V3.Ref.dtor (fst (V3.Ref.move_ctor other)))
         (λ _, V3.Ref.dtor (snd (V3.Ref.move_ctor other)))
         (set_checker bc bm1 w) =
      (Ret tt, set_checker bc bm3 w) ∧
    V3.count bm3 a = pred (V3.count bm a) ∧
    V3.count bm3 b = pred (V3.count bm b).
Proof.
  intros Ha Hb Hab Hbm this other.
  exists (V3.remove_borrow bm a),
    (V3.remove_borrow (V3.remove_borrow (V3.remove_borrow bm a) b) nullptr).
  split_and!.
  - unfold V3.Ref.move_assign. unfold_m. cbn. by rewrite Hbm.
  - by apply V3_remove_borrow_count.
  - by apply V3_remove_borrow_count_ne.
  - unfold V3.Ref.dtor. unfold_m. cbn. rewrite lookup_insert_eq. cbn.
    rewrite lookup_insert_eq. by rewrite !set_checker_twice.
  - rewrite !V3_remove_borrow_count_ne by done.
    by apply V3_remove_borrow_count.
  - rewrite V3_remove_borrow_count_ne, V3_remove_borrow_count by done.
    by rewrite V3_remove_borrow_count_ne.
Qed.

Lemma array_ref_move_assign_releases_witness :
  let bm := [ {| V3.ptr := 1; V3.state := Valid |};
              {| V3.ptr := 2; V3.state := Valid |};
              {| V3.ptr := nullptr; V3.state := Valid |} ] in
  let w := set_checker 100 bm array_world in
  ∃ bm1,
    V3.Ref.move_assign
      {| V3.Ref.data_ := 1; V3.Ref.borrow_checker_ := 100 |}
      {| V3.Ref.data_ := 2; V3.Ref.borrow_checker_ := 100 |} w =
      (Ret ({| V3.Ref.data_ := 2; V3.Ref.borrow_checker_ := 100 |},
            {| V3.Ref.data_ := nullptr; V3.Ref.borrow_checker_ := 100 |}),
       set_checker 100 bm1 w) ∧
    V3.count bm1 1 = 0%nat.
Proof.
  intros bm w.
  destruct (array_ref_move_assign_releases 1 2 100 w bm)
    as (bm1 & _ & H1 & H2 & _); [done|done|done|reflexivity|].
  exists bm1. split; [exact H1|exact H2].
Defined.

(** X19. Moving an [Own] of v2.h moves the owner flag and the address: the
    destructor of the moved-from handle does nothing, in any world, and the
    destructor of the new handle erases the entry of the address and frees
    the object. *)
Theorem own_move_transfers_release (o : V2.Own.t)
    (w : World (gmap N BorrowState)) (m : gmap N BorrowState) :
  V2.Own.is_owner_ o = true →
  V2.Own.data_ o ≠ nullptr → V2.Own.data_ o ∈ heap w →
  checkers w !! V2.Own.borrow_checker_ o = Some m →
  V2.Own.get (fst (V2.Own.move_ctor o)) = V2.Own.get o ∧
  V2.Own.get (snd (V2.Own.move_ctor o)) = nullptr ∧
  (∀ w' : World (gmap N BorrowState),
     V2.Own.dtor (snd (V2.Own.move_ctor o)) w' = (Ret tt, w')) ∧
  ∃ w1,
    V2.Own.dtor (fst (V2.Own.move_ctor o)) w = (Ret tt, w1) ∧
    checkers w1 !! V2.Own.borrow_checker_ o = Some (delete (V2.Own.data_ o) m) ∧
    V2.Own.data_ o ∉ heap w1.
Proof.
  destruct o as [a bc flag]. cbn. intros -> Ha Hheap Hm.
  split; [done|]. split; [done|]. split; [done|].
  eexists. split.
  { unfold V2.Own.dtor. unfold_m. cbn. rewrite Hm. cbn.
    rewrite decide_False by done. by rewrite decide_True. }
  cbn. split; [by rewrite lookup_insert_eq, V2_remove_borrow_delete|].
  apply not_elem_of_difference. right. by apply elem_of_singleton.
Qed.

Lemma own_move_transfers_release_witness :
  ∃ w1, V2.Own.dtor (fst (V2.Own.move_ctor (V2.Own.ctor 1 100))) hash_world
        = (Ret tt, w1) ∧ 1 ∉ heap w1.
Proof.
  destruct (own_move_transfers_release (V2.Own.ctor 1 100) hash_world ∅)
    as (_ & _ & _ & w1 & H1 & _ & H2);
    [reflexivity|done|by vm_compute|reflexivity|].
  exists w1. split; [exact H1|exact H2].
Defined.

End Moves.
